(** * The package index: parser, store and connection handler

    A shallow embedding of [package_objects.py] and of the request handler of
    [package_server.py], with the properties of the index that the
    specification states.

    Python 2 strings are byte strings: they are modelled as [string], a list
    of 8-bit characters.  The two dicts of the store are finite maps from
    names to lists of names ([gmap string (list string)]); the values are
    Python lists, so order and repetitions are kept.  An operation either
    returns or raises, and what it has written to the dicts before raising
    stays written: operations are functions from a store to an [outcome]
    and a store. *)

From Stdlib Require Import Ascii String.
From stdpp Require Import gmap strings list fin_maps.

Open Scope string_scope.

(** ** Exceptions and outcomes *)

(** The two exceptions the modelled code can raise: [KeyError] from
    [d[k]] on a missing key, [ValueError] from [list.remove] on a missing
    element and from the parser. *)
Inductive exn : Type :=
  | KeyError (k : string)
  | ValueError.

Inductive outcome (A : Type) : Type :=
  | Returned (a : A)
  | Raised (e : exn).

Arguments Returned {A} a.
Arguments Raised {A} e.

Definition returns {A : Type} (o : outcome A) : Prop :=
  match o with Returned _ => True | Raised _ => False end.

(** ** Python list and dict primitives *)

(** [l.remove(x)]: drops the first element equal to [x]; [None] stands for
    the [ValueError] raised when there is none. *)
Fixpoint list_remove (x : string) (l : list string) : option (list string) :=
  match l with
  | [] => None
  | y :: l' => if decide (y = x) then Some l' else cons y <$> list_remove x l'
  end.

(** [k in d] for a dict [d]. *)
Definition has_key (d : gmap string (list string)) (k : string) : bool :=
  match d !! k with Some _ => true | None => false end.

(** Truth value of an optional list: [None] and [[]] are false. *)
Definition truthy_list (o : option (list string)) : bool :=
  match o with Some (_ :: _) => true | _ => false end.

(** ** The store *)

(** [DataPackageStore]: the reverse map [used_by] and the forward map
    [dependencies].  The lock is not part of the state: every operation
    below is one critical section. *)
Record store : Type := mkStore {
  used_by : gmap string (list string);
  dependencies : gmap string (list string)
}.

Definition empty_store : store := mkStore ∅ ∅.

(** The fields of a parsed request.  The Python attribute
    [DataPackage.dependencies] is [pkg_dependencies] here, the store having
    a field of the same name. *)
Record DataPackage : Type := mkPackage {
  command : string;
  name : string;
  pkg_dependencies : list string
}.

(** *** A state and exception monad over the store *)

Definition M (A : Type) : Type := store → outcome A * store.

Definition ret {A : Type} (a : A) : M A := λ s, (Returned a, s).

Definition raise {A : Type} (e : exn) : M A := λ s, (Raised e, s).

Definition bind {A B : Type} (m : M A) (k : A → M B) : M B :=
  λ s, match m s with
       | (Returned a, s') => k a s'
       | (Raised e, s') => (Raised e, s')
       end.

Notation "'let!' x ':=' m 'in' k" := (bind m (λ x, k))
  (at level 10, x name, m at level 100, k at level 200).
Notation "m >>; k" := (bind m (λ _, k))
  (at level 90, right associativity).

(** [self.used_by[x]] read: [KeyError] on a missing key. *)
Definition used_by_getitem (x : string) : M (list string) :=
  λ s, match used_by s !! x with
       | Some l => (Returned l, s)
       | None => (Raised (KeyError x), s)
       end.

(** [self.used_by[x] = l]; also used for a list object held at
    [self.used_by[x]] that is mutated in place. *)
Definition used_by_setitem (x : string) (l : list string) : M unit :=
  λ s, (Returned tt, mkStore (<[x := l]> (used_by s)) (dependencies s)).

(** [x in self.used_by] *)
Definition used_by_contains (x : string) : M bool :=
  λ s, (Returned (has_key (used_by s) x), s).

(** [self.used_by.get(x, None)] *)
Definition used_by_get (x : string) : M (option (list string)) :=
  λ s, (Returned (used_by s !! x), s).

(** [self.dependencies.get(x, None)] *)
Definition dependencies_get (x : string) : M (option (list string)) :=
  λ s, (Returned (dependencies s !! x), s).

(** [self.dependencies[x] = l] *)
Definition dependencies_setitem (x : string) (l : list string) : M unit :=
  λ s, (Returned tt, mkStore (used_by s) (<[x := l]> (dependencies s))).

(** [any(x not in self.dependencies for x in l)] *)
Definition any_not_indexed (l : list string) : M bool :=
  λ s, (Returned (existsb (λ x, negb (has_key (dependencies s) x)) l), s).

(** [self.dependencies.pop(key, None); self.used_by.pop(key, None)] *)
Definition pop_both (key : string) : M unit :=
  λ s, (Returned tt, mkStore (delete key (used_by s)) (delete key (dependencies s))).

(** [self.used_by[item].remove(key)] *)
Definition used_by_remove (item key : string) : M unit :=
  let! l := used_by_getitem item in
  match list_remove key l with
  | Some l' => used_by_setitem item l'
  | None => raise ValueError
  end.

(** [self.used_by[x].append(key)] *)
Definition used_by_append (x key : string) : M unit :=
  let! l := used_by_getitem x in
  used_by_setitem x (l ++ [key]).

(** [for item in items: self.used_by[item].remove(key)] *)
Fixpoint remove_usage (key : string) (items : list string) : M unit :=
  match items with
  | [] => ret tt
  | item :: rest => used_by_remove item key >>; remove_usage key rest
  end.

(** [for x in deps: if key not in self.used_by: self.used_by[x].append(key)] *)
Fixpoint add_usage (key : string) (deps : list string) : M unit :=
  match deps with
  | [] => ret tt
  | x :: rest =>
      (let! known := used_by_contains key in
       if known then ret tt else used_by_append x key) >>;
      add_usage key rest
  end.

(** *** The three operations *)

(** [find_package]: [return self.dependencies.get(key, None)], under the
    lock unless [locked]. *)
Definition find_package (key : string) : M (option (list string)) :=
  dependencies_get key.

(** The clean-up of [add_package] for a package that is indexed already:
    [if prev: for item in [x for x in prev if x not in
    package.dependencies]: self.used_by[item].remove(package.name)]. *)
Definition drop_stale_usage (package : DataPackage) (prev : option (list string))
    : M unit :=
  if truthy_list prev
  then remove_usage (name package)
         (filter (λ x, x ∉ pkg_dependencies package) (default [] prev))
  else ret tt.

(** [if key not in self.used_by: self.used_by[key] = []] *)
Definition ensure_used_by (key : string) : M unit :=
  let! known := used_by_contains key in
  if known then ret tt else used_by_setitem key [].

(** What [add_package] does once every dependency is found indexed. *)
Definition add_package_body (package : DataPackage) : M (option string) :=
  let! prev := dependencies_get (name package) in
  drop_stale_usage package prev >>;
  add_usage (name package) (pkg_dependencies package) >>;
  dependencies_setitem (name package) (pkg_dependencies package) >>;
  ensure_used_by (name package) >>;
  ret (Some (name package)).

(** [add_package]: [Returned None] is the Python [return None],
    [Returned (Some n)] is [return package.name]. *)
Definition add_package (package : DataPackage) : M (option string) :=
  let! missing := any_not_indexed (pkg_dependencies package) in
  if missing then ret None else add_package_body package.

(** [remove_package]: [Returned (Some key)] is [return key],
    [Returned None] is [return None]. *)
Definition remove_package (key : string) : M (option string) :=
  let! val := find_package key in
  match val with
  | None => ret (Some key)
  | Some val =>
      let! used := used_by_get key in
      if truthy_list used then ret None
      else
        remove_usage key val >>;
        pop_both key >>;
        ret (Some key)
  end.

(** ** The request parser *)

Definition pipe : ascii := "|"%char.
Definition comma : ascii := ","%char.
Definition newline : ascii := "010"%char.

(** The line terminator as a string, to write requests and responses. *)
Definition nl : string := String newline "".

Definition CMD_INDEX : string := "INDEX".
Definition CMD_REMOVE : string := "REMOVE".
Definition CMD_QUERY : string := "QUERY".

Definition VALID_COMMANDS : list string := [CMD_INDEX; CMD_REMOVE; CMD_QUERY].

(** The longest prefix of [s] whose characters all satisfy [p], and the
    rest of [s]: what a greedy [c*] consumes when no backtracking can
    shorten it. *)
Fixpoint span (p : ascii → bool) (s : string) : string * string :=
  match s with
  | EmptyString => (EmptyString, EmptyString)
  | String c r =>
      if p c then let '(a, b) := span p r in (String c a, b)
      else (EmptyString, s)
  end.

Definition not_pipe (c : ascii) : bool := negb (Ascii.eqb c pipe).
Definition not_newline (c : ascii) : bool := negb (Ascii.eqb c newline).

(** [request_regex.match(s)], giving the groups [cmd], [name] and
    [depends] of the match.  The pattern is: group [cmd], one or more
    characters other than '|'; a '|'; group [name], one or more characters
    other than '|'; a '|'; group [depends], any number of characters other
    than the newline.  [match] anchors at the start of [s] only.  A maximal
    run of characters other than '|' is followed by '|' or by the end of
    the input, so the first two groups each take a whole run, which must be
    followed by '|'; the last group is greedy and nothing follows it, so it
    takes everything up to the first newline. *)
Definition request_regex_match (s : string) : option (string * string * string) :=
  let '(cmd, r1) := span not_pipe s in
  match cmd, r1 with
  | String _ _, String _ r2 =>
      let '(nm, r3) := span not_pipe r2 in
      match nm, r3 with
      | String _ _, String _ r4 => Some (cmd, nm, (span not_newline r4).1)
      | _, _ => None
      end
  | _, _ => None
  end.

(** [s.split(sep)] for a one-character separator: every occurrence of the
    separator splits, and empty pieces are kept. *)
Fixpoint split (sep : ascii) (s : string) : list string :=
  match s with
  | EmptyString => [EmptyString]
  | String c r =>
      if Ascii.eqb c sep then EmptyString :: split sep r
      else match split sep r with
           | h :: t => String c h :: t
           | [] => [String c EmptyString]
           end
  end.

(** The value of [self.dependencies] for the text of the group
    [depends]: [deps.split(',')] when [deps] is not empty, else [[]]. *)
Definition split_depends (deps : string) : list string :=
  match deps with
  | EmptyString => []
  | _ => split comma deps
  end.

(** [DataPackage.__init__]: the parsed request, or the [ValueError]. *)
Definition DataPackage_init (req_string : string) : outcome DataPackage :=
  match req_string with
  | EmptyString => Raised ValueError
  | _ =>
      match request_regex_match req_string with
      | None => Raised ValueError
      | Some (cmd, nm, deps) =>
          if bool_decide (cmd ∈ VALID_COMMANDS)
          then Returned (mkPackage cmd nm (split_depends deps))
          else Raised ValueError
      end
  end.

Definition is_query (p : DataPackage) : bool := bool_decide (command p = CMD_QUERY).
Definition is_index (p : DataPackage) : bool := bool_decide (command p = CMD_INDEX).
Definition is_remove (p : DataPackage) : bool := bool_decide (command p = CMD_REMOVE).

(** ** The connection handler *)

Definition RESPONSE_OK : string := "OK" ++ nl.
Definition RESPONSE_FAIL : string := "FAIL" ++ nl.
Definition RESPONSE_ERROR : string := "ERROR" ++ nl.

(** Truth value of what [add_package] and [remove_package] return: [None]
    and the empty string are false. *)
Definition truthy_name (o : option string) : bool :=
  match o with Some (String _ _) => true | _ => false end.

(** The response after a store call: what the [try] block leaves in
    [response], [RESPONSE_ERROR] when the call raised (both [except]
    clauses assign it). *)
Definition respond {A : Type} (ok : A → bool) (r : outcome A * store) : string * store :=
  match r with
  | (Returned a, s) => (if ok a then RESPONSE_OK else RESPONSE_FAIL, s)
  | (Raised _, s) => (RESPONSE_ERROR, s)
  end.

(** [process_request]: the response to one received chunk, and the store
    afterwards. *)
Definition process_request (data : string) (s : store) : string * store :=
  match DataPackage_init data with
  | Raised _ => (RESPONSE_ERROR, s)
  | Returned req =>
      if is_query req then respond (λ r, bool_decide (r ≠ None)) (find_package (name req) s)
      else if is_remove req then respond truthy_name (remove_package (name req) s)
      else respond truthy_name (add_package req s)
  end.

(** [handle]: the loop body runs once for each chunk that [recv] delivers;
    [chunks] are those deliveries in order, and the result lists what is
    passed to [send]. *)
Fixpoint handle (chunks : list string) (s : store) : list string * store :=
  match chunks with
  | [] => ([], s)
  | data :: rest =>
      let '(reply, s1) := process_request data s in
      let '(replies, s2) := handle rest s1 in
      (reply :: replies, s2)
  end.

(** ** Sequences of store operations *)

(** A call of one of the three operations of the store. *)
Inductive op : Type :=
  | Index (nm : string) (deps : list string)
  | Remove (nm : string)
  | Query (nm : string).

(** Whether a returned value is the success value: a name from
    [add_package] and [remove_package], a list from [find_package];
    [None] is the other value. *)
Definition success {A : Type} (o : option A) : bool :=
  match o with Some _ => true | None => false end.

Definition outcome_map {A B : Type} (f : A → B) (o : outcome A) : outcome B :=
  match o with Returned a => Returned (f a) | Raised e => Raised e end.

(** The call [o] on the store [s]: whether it returned success, returned
    the other value or raised, and the store it leaves. *)
Definition exec (o : op) (s : store) : outcome bool * store :=
  match o with
  | Index nm deps =>
      let '(r, s') := add_package (mkPackage CMD_INDEX nm deps) s in
      (outcome_map success r, s')
  | Remove nm =>
      let '(r, s') := remove_package nm s in (outcome_map success r, s')
  | Query nm =>
      let '(r, s') := find_package nm s in (outcome_map success r, s')
  end.

(** The store after the calls [ops], made in order from [s]. *)
Definition run (ops : list op) (s : store) : store :=
  foldl (λ s o, (exec o s).2) s ops.

Definition reachable (s : store) : Prop := ∃ ops, run ops empty_store = s.

(** *** The invariants of the specification, as predicates on a store *)

(** [d] is listed in [deps[p]]. *)
Definition depends_on (s : store) (p d : string) : Prop :=
  ∃ l, dependencies s !! p = Some l ∧ d ∈ l.

(** [p] is listed in [users[d]]. *)
Definition used_in (s : store) (d p : string) : Prop :=
  ∃ l, used_by s !! d = Some l ∧ p ∈ l.

(** I2 and P6: [d ∈ deps[p]] if and only if [p ∈ users[d]]. *)
Definition reverse_consistent (s : store) : Prop :=
  ∀ p d, depends_on s p d ↔ used_in s d p.

(** I3 and P5: every listed dependency is a key of the forward map. *)
Definition no_orphans (s : store) : Prop :=
  ∀ p d, depends_on s p d → is_Some (dependencies s !! d).

(** I5: no collection lists a name twice. *)
Definition set_semantics (s : store) : Prop :=
  (∀ p l, dependencies s !! p = Some l → NoDup l) ∧
  (∀ d l, used_by s !! d = Some l → NoDup l).

(** I1: the two maps have the same keys. *)
Definition key_symmetric (s : store) : Prop :=
  ∀ k, is_Some (dependencies s !! k) ↔ is_Some (used_by s !! k).

(** Every entry of the reverse map is backed by the forward map (one half
    of I2). *)
Definition users_backed (s : store) : Prop :=
  ∀ d p, used_in s d p → depends_on s p d.

(** ** The grammar and the framing of the specification *)

(** The specification's [name]: one or more bytes, none of them '|', ','
    or the newline. *)
Fixpoint spec_name_chars (s : string) : bool :=
  match s with
  | EmptyString => true
  | String c r =>
      negb (Ascii.eqb c pipe) && negb (Ascii.eqb c comma) &&
      negb (Ascii.eqb c newline) && spec_name_chars r
  end.

Definition spec_name (s : string) : bool :=
  match s with EmptyString => false | _ => spec_name_chars s end.

(** The specification's [line := command "|" name "|" deps]: since no
    token holds a '|', a line of the grammar has exactly three pieces
    between its separators. *)
Definition spec_line (line : string) : bool :=
  match split pipe line with
  | [cmd; nm; deps] =>
      bool_decide (cmd ∈ VALID_COMMANDS) && spec_name nm &&
      match deps with
      | EmptyString => true
      | _ => forallb spec_name (split comma deps)
      end
  | _ => false
  end.

(** The specification's framing of a buffer: the pieces that a newline
    ends; what follows the last newline is a partial frame and is left
    out. *)
Definition spec_frames (buf : string) : list string :=
  removelast (split newline buf).

(** ** Store objects and their construction *)

Module Objects.

(** Dict objects live in a heap, and a variable or attribute holds a
    reference to one. *)
Definition ref : Type := nat.

Record heap : Type := mkHeap {
  dicts : gmap ref (gmap string (list string));
  next_ref : ref
}.

Definition empty_heap : heap := mkHeap ∅ 0.

(** Evaluation of a dict display [{}]: a new empty dict. *)
Definition new_dict (h : heap) : ref * heap :=
  (next_ref h, mkHeap (<[next_ref h := ∅]> (dicts h)) (S (next_ref h))).

(** The default values of the parameters [used_by] and [dependencies] of
    [__init__].  Python evaluates default expressions once, when the
    [def] statement is executed. *)
Record defaults : Type := mkDefaults {
  default_used_by : ref;
  default_dependencies : ref
}.

(** Execution of the [class DataPackageStore] statement: the two [{}]
    defaults of [__init__] are evaluated. *)
Definition define_class (h : heap) : defaults * heap :=
  let '(u, h1) := new_dict h in
  let '(d, h2) := new_dict h1 in
  (mkDefaults u d, h2).

(** A [DataPackageStore] instance: its attributes hold references. *)
Record DataPackageStore : Type := mkInstance {
  self_used_by : ref;
  self_dependencies : ref
}.

(** [DataPackageStore.__init__]: an argument that is not passed takes the
    default; the body assigns the references and allocates nothing. *)
Definition init (dflt : defaults) (used_by dependencies : option ref)
    : DataPackageStore :=
  mkInstance (default (default_used_by dflt) used_by)
             (default (default_dependencies dflt) dependencies).

(** The store seen through an instance. *)
Definition view (self : DataPackageStore) (h : heap) : store :=
  mkStore (default ∅ (dicts h !! self_used_by self))
          (default ∅ (dicts h !! self_dependencies self)).

(** A method call on an instance whose two attributes refer to different
    dicts (as the two defaults do): the method runs on the dicts the
    instance refers to, and its writes land in those dicts. *)
Definition call {A : Type} (m : M A) (self : DataPackageStore) (h : heap)
    : outcome A * heap :=
  let '(r, s') := m (view self h) in
  (r, mkHeap (<[self_dependencies self := dependencies s']>
                (<[self_used_by self := used_by s']> (dicts h)))
             (next_ref h)).

End Objects.

(** ** Definitions for the statements *)

(** *** Two stores reached from the empty store *)

(** The store after INDEX a, INDEX b and INDEX b with the dependency a. *)
Definition reindexed : store :=
  run [Index "a" []; Index "b" []; Index "b" ["a"]] empty_store.

(** The store after REMOVE a in [reindexed]. *)
Definition orphaned : store := run [Remove "a"] reindexed.

(** *** Relations between the stores before and after a computation *)

(** [preserves R m]: the store that [m] leaves, on return or on raise, is
    related by [R] to the store it started from. *)
Definition preserves {A : Type} (R : relation store) (m : M A) : Prop :=
  ∀ s, R s (m s).2.

(** The forward map and the keys of the reverse map are the same in both
    stores. *)
Definition same_frame (s s' : store) : Prop :=
  dependencies s' = dependencies s ∧
  ∀ k, is_Some (used_by s' !! k) ↔ is_Some (used_by s !! k).

(** The stores that the clean-up loops can leave: the frame is kept, and
    every list of the reverse map is what is left of the list that was
    there. *)
Definition shrinks (s s' : store) : Prop :=
  same_frame s s' ∧
  ∀ d l', used_by s' !! d = Some l' →
          ∃ l, used_by s !! d = Some l ∧ l' `sublist_of` l.

(** *** The results of [add_package] *)

(** Some listed dependency is not a key of the forward map. *)
Definition some_not_indexed (s : store) (deps : list string) : Prop :=
  ∃ d, d ∈ deps ∧ dependencies s !! d = None.

(** The store that a returning [add_package] assembles from the store [s2]
    that the two loops leave. *)
Definition indexed (package : DataPackage) (s2 : store) : store :=
  mkStore (if has_key (used_by s2) (name package) then used_by s2
           else <[name package := []]> (used_by s2))
          (<[name package := pkg_dependencies package]> (dependencies s2)).

(** *** The invariant kept under requests without repeated dependencies *)

(** The part of I1, I2 and I5 that every operation keeps when no index
    request repeats a dependency: same keys in both maps, no repetition in
    any list, and every reverse entry backed by a forward entry. *)
Definition tidy (s : store) : Prop :=
  key_symmetric s ∧ set_semantics s ∧ users_backed s.

(** An index request lists no dependency twice. *)
Definition no_repeated_dependency (o : op) : Prop :=
  match o with
  | Index _ deps => NoDup deps
  | _ => True
  end.

(** *** Characters of a string *)

(** Every character of [s] satisfies [p]. *)
Fixpoint all_chars (p : ascii → bool) (s : string) : bool :=
  match s with
  | EmptyString => true
  | String c r => p c && all_chars p r
  end.

(** [s] is empty or starts with a character that fails [p]. *)
Definition stops_at (p : ascii → bool) (s : string) : Prop :=
  match s with
  | EmptyString => True
  | String c _ => p c = false
  end.

(** *** The handler as parse, store call and response *)

(** The store call that a parsed request stands for. *)
Definition request_op (req : DataPackage) : op :=
  if is_query req then Query (name req)
  else if is_remove req then Remove (name req)
  else Index (name req) (pkg_dependencies req).

(** The response line for the result of a store call. *)
Definition response (r : outcome bool) : string :=
  match r with
  | Returned true => RESPONSE_OK
  | Returned false => RESPONSE_FAIL
  | Raised _ => RESPONSE_ERROR
  end.

(** The response to one chunk: ERROR when the chunk does not parse, else
    the response for the call that the parsed request stands for. *)
Definition serve_chunk (data : string) (s : store) : string * store :=
  match DataPackage_init data with
  | Raised _ => (RESPONSE_ERROR, s)
  | Returned req =>
      let '(r, s') := exec (request_op req) s in (response r, s')
  end.

(** The replies to the chunks, one after the other. *)
Fixpoint serve_chunks (chunks : list string) (s : store) : list string * store :=
  match chunks with
  | [] => ([], s)
  | data :: rest =>
      let '(reply, s1) := serve_chunk data s in
      let '(replies, s2) := serve_chunks rest s1 in
      (reply :: replies, s2)
  end.

(** ** Definitions for further properties *)

(** The package that a call names. *)
Definition op_name (o : op) : string :=
  match o with
  | Index nm _ => nm
  | Remove nm => nm
  | Query nm => nm
  end.

(** *** Stores in which the forward and the reverse map agree *)

(** The other half of I2: every forward entry has its reverse entry. *)
Definition forward_closed (s : store) : Prop :=
  ∀ p d, depends_on s p d → used_in s d p.

(** I1, I2, I3 and I5 together. *)
Definition consistent (s : store) : Prop :=
  tidy s ∧ forward_closed s ∧ no_orphans s.

(** A call that the reverse-map update handles: an index request lists no
    dependency twice and, for a package that is indexed in [s], lists only
    dependencies that the package has already. *)
Definition gentle (o : op) (s : store) : bool :=
  match o with
  | Index nm deps =>
      bool_decide (NoDup deps) &&
      match dependencies s !! nm with
      | Some prev => forallb (λ d, bool_decide (d ∈ prev)) deps
      | None => true
      end
  | _ => true
  end.

(** Every call of [ops] is gentle in the store in which it is made. *)
Fixpoint gentle_run (ops : list op) (s : store) : bool :=
  match ops with
  | [] => true
  | o :: rest => gentle o s && gentle_run rest (exec o s).2
  end.

(** What the clean-up loop for [key] over [items] can change: lists of the
    reverse map at [items] only, and in them entries for [key] only. *)
Definition touches_only (key : string) (items : list string) (s s' : store) : Prop :=
  (∀ d, d ∉ items → used_by s' !! d = used_by s !! d) ∧
  (∀ d l l' p, used_by s !! d = Some l → used_by s' !! d = Some l' →
               p ≠ key → p ∈ l → p ∈ l').

(** *** Request lines *)

(** [sep.join(l)], the inverse of [split]: the pieces with the separator
    between them. *)
Fixpoint join (sep : ascii) (l : list string) : string :=
  match l with
  | [] => EmptyString
  | x :: rest =>
      match rest with
      | [] => x
      | _ => x ++ String sep (join sep rest)
      end
  end.

(** The request line of the wire format for a command, a name and a list
    of dependencies. *)
Definition request_line (cmd nm : string) (deps : list string) : string :=
  cmd ++ "|" ++ nm ++ "|" ++ join comma deps.

(** The chunk that a client sends for a call, as [test_client] does: the
    request line and a newline, in one [sendall]. *)
Definition wire (o : op) : string :=
  match o with
  | Index nm deps => request_line CMD_INDEX nm deps
  | Remove nm => request_line CMD_REMOVE nm []
  | Query nm => request_line CMD_QUERY nm []
  end ++ nl.

(** The names of a call are names of the grammar. *)
Definition wire_names (o : op) : bool :=
  match o with
  | Index nm deps => spec_name nm && forallb spec_name deps
  | Remove nm => spec_name nm
  | Query nm => spec_name nm
  end.

(** The response lines for the calls [ops], made in order from [s]. *)
Fixpoint replies (ops : list op) (s : store) : list string :=
  match ops with
  | [] => []
  | o :: rest => response (exec o s).1 :: replies rest (exec o s).2
  end.

(** *** Reading from the connection *)

(** The size that [handle] passes to [recv]. *)
Definition RECV_SIZE : nat := 2048.

(** The first [n] bytes of [s], all of [s] when it is shorter. *)
Fixpoint take_bytes (n : nat) (s : string) : string :=
  match n, s with
  | S n', String c r => String c (take_bytes n' r)
  | _, _ => EmptyString
  end.

(** [s] without its first [n] bytes. *)
Fixpoint drop_bytes (n : nat) (s : string) : string :=
  match n, s with
  | S n', String c r => drop_bytes n' r
  | _, _ => s
  end.

(** [self.request.recv(bufsize)] when the bytes [pending] have arrived:
    at most [bufsize] of them are returned, and the others stay
    pending. *)
Definition recv (bufsize : nat) (pending : string) : string * string :=
  (take_bytes bufsize pending, drop_bytes bufsize pending).

(** * Properties *)

(** ** Runs that show the defect of the reverse-map update *)

(** The test [package.name not in self.used_by] of the loop that records
    the reverse entries asks whether the package is a key of the reverse
    map, so a package that is indexed again with a new dependency is never
    recorded as a user of it. *)

(** C1 (the code departs from the claim): in the store reached by
    INDEX a, INDEX b, INDEX b with dependency a, which the handler reaches
    with three OK responses, REMOVE b and INDEX b without dependencies both
    raise ValueError out of the store operation; the handler answers
    ERROR.  Of the three operations, [find_package] alone returns in every
    store. *)
Theorem store_operation_raises :
  (∀ key s, find_package key s = (Returned (dependencies s !! key), s)) ∧
  reachable reindexed ∧
  (handle ["INDEX|a|" ++ nl; "INDEX|b|" ++ nl; "INDEX|b|a" ++ nl] empty_store)
    = ([RESPONSE_OK; RESPONSE_OK; RESPONSE_OK], reindexed) ∧
  (remove_package "b" reindexed).1 = Raised ValueError ∧
  (add_package (mkPackage CMD_INDEX "b" []) reindexed).1 = Raised ValueError ∧
  (process_request ("REMOVE|b|" ++ nl) reindexed).1 = RESPONSE_ERROR.
Proof.
  split; [done|]. split; [by eexists|].
  repeat split; by vm_compute.
Qed.

(** C2 (the code departs from the claim): INDEX b with dependency a, for
    b already indexed, returns success and leaves a in deps[b] while b is
    not in users[a]. *)
Theorem reindex_breaks_reverse_consistency :
  (exec (Index "b" ["a"]) (run [Index "a" []; Index "b" []] empty_store))
    = (Returned true, reindexed) ∧
  depends_on reindexed "b" "a" ∧
  ¬ used_in reindexed "a" "b" ∧
  ¬ reverse_consistent reindexed.
Proof.
  assert (Hdep : depends_on reindexed "b" "a").
  { exists ["a"]. split; [by vm_compute | set_solver]. }
  assert (Huse : ¬ used_in reindexed "a" "b").
  { intros (l & Hl & Hin). vm_compute in Hl.
    injection Hl as <-. set_solver. }
  split; [by vm_compute|].
  split; [done|]. split; [done|].
  intros Hrc. apply Huse, Hrc, Hdep.
Qed.

(** C4 (the code departs from the claim): after the run above, REMOVE a
    returns success, although b lists a, and leaves deps[b] naming a
    package that is not a key of the forward map. *)
Theorem remove_leaves_orphan_reference :
  exec (Remove "a") reindexed = (Returned true, orphaned) ∧
  depends_on orphaned "b" "a" ∧
  dependencies orphaned !! "a" = None ∧
  ¬ no_orphans orphaned.
Proof.
  assert (Hdep : depends_on orphaned "b" "a").
  { exists ["a"]. split; [by vm_compute | set_solver]. }
  assert (Hnone : dependencies orphaned !! "a" = None) by by vm_compute.
  split; [by vm_compute|].
  split; [done|]. split; [done|].
  intros Hno. destruct (Hno _ _ Hdep) as [l Hl]. congruence.
Qed.

(** C8 (the code departs from the claim): two instances constructed with
    default arguments refer to the same two dicts, and a package added
    through the first is found through the second. *)
Theorem default_instances_share_maps :
  let '(dflt, h) := Objects.define_class Objects.empty_heap in
  let a := Objects.init dflt None None in
  let b := Objects.init dflt None None in
  Objects.self_used_by a = Objects.self_used_by b ∧
  Objects.self_dependencies a = Objects.self_dependencies b ∧
  (Objects.call (find_package "x") b h).1 = Returned None ∧
  let '(r, h') := Objects.call (add_package (mkPackage CMD_INDEX "x" [])) a h in
  r = Returned (Some "x") ∧
  (Objects.call (find_package "x") b h').1 = Returned (Some []) ∧
  Objects.view b h' ≠ Objects.view b h.
Proof.
  vm_compute. repeat split; done.
Qed.

(** ** The loops over the reverse map *)

Lemma bind_returned {A B : Type} (m : M A) (k : A → M B) s b s' :
  bind m k s = (Returned b, s') ↔
  ∃ a s1, m s = (Returned a, s1) ∧ k a s1 = (Returned b, s').
Proof.
  unfold bind. split.
  - destruct (m s) as [[a|e] s1]; [eauto | discriminate].
  - intros (a & s1 & -> & ?). done.
Qed.

Lemma has_key_true (d : gmap string (list string)) k :
  has_key d k = true ↔ is_Some (d !! k).
Proof.
  unfold has_key. destruct (d !! k) as [l|]; split; try done.
Qed.

Lemma has_key_false (d : gmap string (list string)) k :
  has_key d k = false ↔ d !! k = None.
Proof. unfold has_key. by destruct (d !! k). Qed.

Section Preserves.
Context (R : relation store) `{!PreOrder R}.

Lemma preserves_ret {A : Type} (a : A) : preserves R (ret a).
Proof. intros s. simpl. reflexivity. Qed.

Lemma preserves_raise {A : Type} (e : exn) : preserves R (@raise A e).
Proof. intros s. simpl. reflexivity. Qed.

Lemma preserves_bind {A B : Type} (m : M A) (k : A → M B) :
  preserves R m → (∀ a, preserves R (k a)) → preserves R (bind m k).
Proof.
  intros Hm Hk s. unfold bind. specialize (Hm s).
  destruct (m s) as [[a|e] s1]; simpl in *; [|done].
  etrans; [exact Hm | apply Hk].
Qed.

Lemma preserves_read {A : Type} (f : store → outcome A) :
  preserves R (λ s, (f s, s)).
Proof. intros s. simpl. reflexivity. Qed.
End Preserves.

#[local] Instance same_frame_preorder : PreOrder same_frame.
Proof.
  split.
  - by intros s.
  - intros s1 s2 s3 [Hd1 Hk1] [Hd2 Hk2]. split; [congruence|].
    intros k. by rewrite Hk2.
Qed.

(** Writing a list over a list that is already there keeps the frame. *)
Lemma same_frame_overwrite s x l l' :
  used_by s !! x = Some l →
  same_frame s (mkStore (<[x := l']> (used_by s)) (dependencies s)).
Proof.
  intros Hl. split; [done|]. intros k. simpl.
  destruct (decide (x = k)) as [->|Hne].
  - rewrite lookup_insert_eq, Hl. split; eauto.
  - by rewrite lookup_insert_ne.
Qed.

Lemma used_by_remove_frame item key :
  preserves same_frame (used_by_remove item key).
Proof.
  intros s. unfold used_by_remove, bind, used_by_getitem.
  destruct (used_by s !! item) as [l|] eqn:Hl; simpl; [|done].
  destruct (list_remove key l) as [l'|]; simpl; [|done].
  by eapply same_frame_overwrite.
Qed.

Lemma used_by_append_frame x key :
  preserves same_frame (used_by_append x key).
Proof.
  intros s. unfold used_by_append, bind, used_by_getitem.
  destruct (used_by s !! x) as [l|] eqn:Hl; simpl; [|done].
  by eapply same_frame_overwrite.
Qed.

(** The loops write to the reverse map only, and only over lists that are
    already there: the forward map and the keys of the reverse map are as
    before, whether the loop ends or raises. *)
Lemma remove_usage_frame key items :
  preserves same_frame (remove_usage key items).
Proof.
  induction items as [|item rest IH]; simpl.
  - apply preserves_ret, _.
  - apply preserves_bind; [apply _ | apply used_by_remove_frame | done].
Qed.

Lemma add_usage_frame key deps :
  preserves same_frame (add_usage key deps).
Proof.
  induction deps as [|x rest IH]; simpl.
  - apply preserves_ret, _.
  - apply preserves_bind; [apply _ | | done].
    apply preserves_bind; [apply _ | apply preserves_read, _ |].
    intros [|]; [apply preserves_ret, _ | apply used_by_append_frame].
Qed.

(** ** What the operations return, and the store they leave *)

Lemma any_not_indexed_true s deps :
  existsb (λ x, negb (has_key (dependencies s) x)) deps = true
  ↔ some_not_indexed s deps.
Proof.
  rewrite existsb_exists. unfold some_not_indexed. split.
  - intros (d & Hin & Hd). exists d. split; [by apply list_elem_of_In|].
    apply has_key_false. by destruct (has_key (dependencies s) d).
  - intros (d & Hin & Hd). exists d. split; [by apply list_elem_of_In|].
    apply has_key_false in Hd. by rewrite Hd.
Qed.

Lemma add_package_refuses package s :
  some_not_indexed s (pkg_dependencies package) →
  add_package package s = (Returned None, s).
Proof.
  intros H%any_not_indexed_true. unfold add_package, bind, any_not_indexed.
  by rewrite H.
Qed.

Lemma add_package_proceeds package s :
  ¬ some_not_indexed s (pkg_dependencies package) →
  add_package package s = add_package_body package s.
Proof.
  intros H. unfold add_package, bind, any_not_indexed.
  destruct (existsb _ _) eqn:He; [|done].
  by apply any_not_indexed_true in He.
Qed.

Lemma drop_stale_usage_frame package prev :
  preserves same_frame (drop_stale_usage package prev).
Proof.
  unfold drop_stale_usage. destruct (truthy_list prev).
  - apply remove_usage_frame.
  - apply preserves_ret, _.
Qed.

Lemma preserves_run {A : Type} (R : relation store) (m : M A) s r s' :
  preserves R m → m s = (r, s') → R s s'.
Proof. intros Hm Hs. specialize (Hm s). by rewrite Hs in Hm. Qed.

(** A returning [add_package_body] returns the name, after both loops ran
    to their end. *)
Lemma add_package_body_returned package s r s' :
  add_package_body package s = (Returned r, s') →
  r = Some (name package) ∧
  ∃ s1 s2,
    drop_stale_usage package (dependencies s !! name package) s = (Returned tt, s1) ∧
    add_usage (name package) (pkg_dependencies package) s1 = (Returned tt, s2) ∧
    same_frame s s2 ∧
    s' = indexed package s2.
Proof.
  unfold add_package_body. intros H.
  apply bind_returned in H as (prev & s0 & Hprev & H).
  unfold dependencies_get in Hprev. injection Hprev as <- <-.
  apply bind_returned in H as ([] & s1 & Hdrop & H).
  apply bind_returned in H as ([] & s2 & Hadd & H).
  apply bind_returned in H as ([] & s3 & Hset & H).
  apply bind_returned in H as ([] & s4 & Hens & H).
  unfold ret in H. injection H as <- <-. split; [done|].
  exists s1, s2. split; [done|]. split; [done|]. split.
  - etrans.
    + eapply preserves_run; [apply drop_stale_usage_frame | exact Hdrop].
    + eapply preserves_run; [apply add_usage_frame | exact Hadd].
  - unfold dependencies_setitem in Hset. injection Hset as <-.
    unfold ensure_used_by, bind, used_by_contains in Hens. simpl in Hens.
    unfold indexed.
    destruct (has_key (used_by s2) (name package));
      unfold ret, used_by_setitem in Hens; simpl in Hens;
      by injection Hens as <-.
Qed.

(** [add_package] has three ways to end: it refuses and leaves the store
    as it is, it returns the name, or it raises. *)
Lemma add_package_returned package s r s' :
  add_package package s = (Returned r, s') →
  (r = None ∧ s' = s ∧ some_not_indexed s (pkg_dependencies package)) ∨
  (r = Some (name package) ∧ ¬ some_not_indexed s (pkg_dependencies package) ∧
   ∃ s2, same_frame s s2 ∧ s' = indexed package s2).
Proof.
  intros H.
  destruct (decide (existsb (λ x, negb (has_key (dependencies s) x))
                      (pkg_dependencies package) = true)) as [He|He].
  - apply any_not_indexed_true in He.
    rewrite (add_package_refuses _ _ He) in H. injection H as <- <-. by left.
  - rewrite any_not_indexed_true in He.
    rewrite (add_package_proceeds _ _ He) in H.
    apply add_package_body_returned in H as (-> & s1 & s2 & _ & _ & Hf & ->).
    right. eauto.
Qed.

(** [remove_package] returns the key when the package is not indexed, and
    when it is indexed and unused and the loop ran to its end. *)
Lemma remove_package_returned key s r s' :
  remove_package key s = (Returned r, s') →
  (r = Some key ∧ s' = s ∧ dependencies s !! key = None) ∨
  (r = None ∧ s' = s ∧ is_Some (dependencies s !! key) ∧
   truthy_list (used_by s !! key) = true) ∨
  (r = Some key ∧ truthy_list (used_by s !! key) = false ∧
   ∃ val s1, dependencies s !! key = Some val ∧
     remove_usage key val s = (Returned tt, s1) ∧
     s' = mkStore (delete key (used_by s1)) (delete key (dependencies s1))).
Proof.
  unfold remove_package, bind at 1, find_package, dependencies_get.
  destruct (dependencies s !! key) as [val|] eqn:Hval.
  - unfold bind at 1, used_by_get.
    destruct (truthy_list (used_by s !! key)) eqn:Hused.
    + unfold ret. intros [= <- <-]. right. left. eauto.
    + intros H. apply bind_returned in H as ([] & s1 & Hrem & H).
      apply bind_returned in H as ([] & s2 & Hpop & H).
      unfold pop_both in Hpop. injection Hpop as <-.
      unfold ret in H. injection H as <- <-.
      right. right. split; [done|]. split; [done|]. eauto.
  - unfold ret. intros [= <- <-]. by left.
Qed.

(** ** Refusal of an index request *)

(** C3, as the claim states it, fails: with a indexed, INDEX a with
    dependency a names itself as a dependency, and is not refused. *)
Lemma self_dependency_not_refused :
  let s := run [Index "a" []] empty_store in
  let package := mkPackage CMD_INDEX "a" ["a"] in
  name package ∈ pkg_dependencies package ∧
  (add_package package s).1 = Returned (Some "a") ∧
  ¬ ((add_package package s).1 = Returned None
     ↔ some_not_indexed s (pkg_dependencies package)
       ∨ name package ∈ pkg_dependencies package).
Proof.
  cbv zeta. cbn [name pkg_dependencies].
  assert (Hin : "a" ∈ ["a"]) by apply list_elem_of_here.
  split; [done|]. split; [by vm_compute|].
  intros [_ H]. specialize (H (or_intror Hin)). vm_compute in H. discriminate.
Qed.

(** C3, amended: [add_package] returns [None] exactly when some listed
    dependency is not a key of the forward map; when it returns [None] the
    store is unchanged; a package that lists itself is refused when it is
    not indexed yet. *)
Theorem add_package_refused_iff (package : DataPackage) (s : store) :
  ((add_package package s).1 = Returned None
   ↔ some_not_indexed s (pkg_dependencies package)) ∧
  ((add_package package s).1 = Returned None → (add_package package s).2 = s) ∧
  (name package ∈ pkg_dependencies package →
   dependencies s !! name package = None →
   add_package package s = (Returned None, s)).
Proof.
  assert (Hiff : (add_package package s).1 = Returned None
                 ↔ some_not_indexed s (pkg_dependencies package)).
  { split.
    - destruct (add_package package s) as [[r|e] s'] eqn:Hadd; [|done].
      simpl. intros [= ->].
      by apply add_package_returned in Hadd as [(_ & _ & ?)|(? & _)].
    - intros H. by rewrite (add_package_refuses _ _ H). }
  split; [done|]. split.
  - intros H%Hiff. by rewrite (add_package_refuses _ _ H).
  - intros Hin Hnone. apply add_package_refuses. by exists (name package).
Qed.

Lemma add_package_refused_iff_witness :
  (add_package (mkPackage CMD_INDEX "cloog" ["gmp"; "isl"]) empty_store).2
    = empty_store.
Proof.
  apply (add_package_refused_iff
           (mkPackage CMD_INDEX "cloog" ["gmp"; "isl"]) empty_store).
  by vm_compute.
Defined.

(** ** Indexing the same package twice *)

Lemma filter_not_in_self (l : list string) : filter (λ x, x ∉ l) l = [].
Proof.
  assert (H : ∀ l', (∀ x, x ∈ l' → x ∈ l) → filter (λ x, x ∉ l) l' = []).
  { induction l' as [|y l' IH]; intros Hsub; [done|].
    rewrite filter_cons. destruct (decide (y ∉ l)) as [Hy|_].
    - destruct Hy. apply Hsub. set_solver.
    - apply IH. intros x Hx. apply Hsub. set_solver. }
  by apply H.
Qed.

(** The loop that records the reverse entries does nothing for a package
    that is a key of the reverse map. *)
Lemma add_usage_known key deps s :
  has_key (used_by s) key = true → add_usage key deps s = (Returned tt, s).
Proof.
  intros Hkey. induction deps as [|x rest IH]; [done|].
  simpl. unfold bind, used_by_contains. by rewrite Hkey.
Qed.

Lemma has_key_indexed package s2 :
  has_key (used_by (indexed package s2)) (name package) = true.
Proof.
  unfold indexed. simpl.
  destruct (has_key (used_by s2) (name package)) eqn:Hk; [done|].
  apply has_key_true. rewrite lookup_insert_eq. eauto.
Qed.

(** C9 (the code departs from the claim): in a reachable store where
    every dependency of the request is indexed, INDEX p|c made twice leaves
    two different stores.  The store has deps[p] = [a, b] with users[b]
    empty, the reverse entry that the test [package.name not in
    self.used_by] never wrote: the first call removes one of the two
    entries of p from users[a] and raises ValueError at
    users[b].remove(p), and the second removes the other entry and raises
    again. *)
Lemma index_twice_differs_when_raising :
  let s := run [Index "a" []; Index "b" []; Index "c" [];
                Index "p" ["a"; "a"]; Index "p" ["a"; "b"]] empty_store in
  let package := mkPackage CMD_INDEX "p" ["c"] in
  reachable s ∧
  ¬ some_not_indexed s (pkg_dependencies package) ∧
  (add_package package s).1 = Raised ValueError ∧
  (add_package package (add_package package s).2).2 ≠ (add_package package s).2 ∧
  dependencies s !! "p" = Some ["a"; "b"] ∧
  used_by s !! "b" = Some [].
Proof.
  cbv zeta. cbn [pkg_dependencies]. split; [by eexists|].
  split; [|split; [|split; [|split]]].
  - intros H%any_not_indexed_true. vm_compute in H. discriminate.
  - by vm_compute.
  - intros H. apply (f_equal (λ s, used_by s !! "a")) in H.
    vm_compute in H. discriminate.
  - by vm_compute.
  - by vm_compute.
Qed.

(** X18: in every store, when [add_package] returns the name, the same
    call made again returns the name and leaves the store as the first
    call left it. *)
Theorem index_idempotent (package : DataPackage) (s s1 : store) (n : string) :
  add_package package s = (Returned (Some n), s1) →
  add_package package s1 = (Returned (Some n), s1).
Proof.
  intros H.
  apply add_package_returned in H as [(? & _)|(Hn & Hm & s2 & [Hd Hk] & ->)];
    [done|].
  injection Hn as ->.
  rewrite add_package_proceeds.
  - unfold add_package_body, bind at 1, dependencies_get.
    replace (dependencies (indexed package s2) !! name package)
      with (Some (pkg_dependencies package))
      by (simpl; by rewrite lookup_insert_eq).
    assert (Hdrop : drop_stale_usage package (Some (pkg_dependencies package))
                    = ret tt).
    { unfold drop_stale_usage. simpl. rewrite filter_not_in_self.
      by destruct (pkg_dependencies package). }
    rewrite Hdrop. unfold bind at 1, ret at 1.
    unfold bind at 1. rewrite add_usage_known by apply has_key_indexed.
    unfold bind at 1, dependencies_setitem.
    unfold bind at 1, ensure_used_by, bind, used_by_contains. simpl.
    pose proof (has_key_indexed package s2) as Hk'. simpl in Hk'.
    rewrite Hk'. unfold ret, indexed. simpl.
    by rewrite insert_insert_eq.
  - intros (d & Hin & Hnone). apply Hm. exists d. split; [done|].
    simpl in Hnone. rewrite <- Hd.
    destruct (decide (name package = d)) as [Heq|Hne].
    + subst d. by rewrite lookup_insert_eq in Hnone.
    + by rewrite lookup_insert_ne in Hnone.
Qed.

Lemma index_idempotent_witness :
  add_package (mkPackage CMD_INDEX "isl" ["gmp"])
    (run [Index "gmp" []; Index "isl" ["gmp"]] empty_store)
  = (Returned (Some "isl"), run [Index "gmp" []; Index "isl" ["gmp"]] empty_store).
Proof.
  apply (index_idempotent (mkPackage CMD_INDEX "isl" ["gmp"])
           (run [Index "gmp" []] empty_store)).
  by vm_compute.
Defined.

(** ** The parser *)

Lemma append_nil (s : string) : "" ++ s = s.
Proof. reflexivity. Qed.

Lemma append_cons c (a b : string) : String c a ++ b = String c (a ++ b).
Proof. reflexivity. Qed.

Lemma span_sound p s a b :
  span p s = (a, b) → s = a ++ b ∧ all_chars p a = true ∧ stops_at p b.
Proof.
  revert a b. induction s as [|c r IH]; intros a b; simpl.
  - by intros [= <- <-].
  - destruct (p c) eqn:Hc.
    + destruct (span p r) as [a' b']. intros [= <- <-].
      destruct (IH a' b' eq_refl) as (-> & Ha & Hb).
      rewrite append_cons. simpl. by rewrite Hc, Ha.
    + by intros [= <- <-].
Qed.

Lemma span_complete p a b :
  all_chars p a = true → stops_at p b → span p (a ++ b) = (a, b).
Proof.
  intros Ha Hb. induction a as [|c a IH].
  - rewrite append_nil. destruct b as [|c b]; [done|].
    simpl in *. by rewrite Hb.
  - rewrite append_cons. simpl in *.
    apply andb_true_iff in Ha as [Hc Ha]. by rewrite Hc, IH.
Qed.

Lemma span_spec p s a b :
  span p s = (a, b) ↔ s = a ++ b ∧ all_chars p a = true ∧ stops_at p b.
Proof.
  split; [apply span_sound|].
  intros (-> & Ha & Hb). by apply span_complete.
Qed.

Lemma stops_at_not_pipe s :
  stops_at not_pipe s ↔ s = "" ∨ ∃ r, s = String pipe r.
Proof.
  destruct s as [|c r]; simpl.
  - split; [by left | done].
  - unfold not_pipe. rewrite negb_false_iff, Ascii.eqb_eq. split.
    + intros ->. right. by exists r.
    + intros [?|[r' [= -> _]]]; done.
Qed.

Lemma stops_at_not_newline s :
  stops_at not_newline s ↔ s = "" ∨ ∃ r, s = String newline r.
Proof.
  destruct s as [|c r]; simpl.
  - split; [by left | done].
  - unfold not_newline. rewrite negb_false_iff, Ascii.eqb_eq. split.
    + intros ->. right. by exists r.
    + intros [?|[r' [= -> _]]]; done.
Qed.

(** The three groups of a match, and only they, satisfy the pattern. *)
Lemma request_regex_match_spec s cmd nm deps :
  request_regex_match s = Some (cmd, nm, deps) ↔
  ∃ rest,
    s = cmd ++ "|" ++ nm ++ "|" ++ deps ++ rest ∧
    cmd ≠ "" ∧ all_chars not_pipe cmd = true ∧
    nm ≠ "" ∧ all_chars not_pipe nm = true ∧
    all_chars not_newline deps = true ∧ stops_at not_newline rest.
Proof.
  unfold request_regex_match. split.
  - destruct (span not_pipe s) as [cmd' r1] eqn:H1.
    apply span_spec in H1 as (-> & Hc & Hs1).
    destruct cmd' as [|c0 cmd']; [done|].
    destruct r1 as [|c1 r2]; [done|].
    apply stops_at_not_pipe in Hs1 as [?|[r Hr]]; [done|].
    injection Hr as -> ->.
    destruct (span not_pipe r) as [nm' r3] eqn:H2.
    apply span_spec in H2 as (-> & Hn & Hs2).
    destruct nm' as [|n0 nm']; [done|].
    destruct r3 as [|c3 r4]; [done|].
    apply stops_at_not_pipe in Hs2 as [?|[r Hr]]; [done|].
    injection Hr as -> ->.
    destruct (span not_newline r) as [deps' rest] eqn:H3.
    apply span_spec in H3 as (-> & Hd & Hs3).
    intros [= <- <- <-]. exists rest.
    repeat split; done.
  - intros (rest & -> & Hc0 & Hc & Hn0 & Hn & Hd & Hrest).
    change (cmd ++ "|" ++ nm ++ "|" ++ deps ++ rest)
      with (cmd ++ String pipe (nm ++ String pipe (deps ++ rest))).
    rewrite (span_complete not_pipe cmd) by done.
    destruct cmd as [|c0 cmd]; [done|].
    rewrite (span_complete not_pipe nm) by done.
    destruct nm as [|n0 nm]; [done|].
    by rewrite (span_complete not_newline deps).
Qed.

Lemma valid_command_chars cmd :
  cmd ∈ VALID_COMMANDS → cmd ≠ "" ∧ all_chars not_pipe cmd = true.
Proof.
  unfold VALID_COMMANDS. rewrite !elem_of_cons, elem_of_nil.
  intros [->|[->|[->|[]]]]; by vm_compute.
Qed.

Lemma DataPackage_init_unfold s :
  DataPackage_init s =
  match request_regex_match s with
  | Some (cmd, nm, deps) =>
      if bool_decide (cmd ∈ VALID_COMMANDS)
      then Returned (mkPackage cmd nm (split_depends deps))
      else Raised ValueError
  | None => Raised ValueError
  end.
Proof. by destruct s. Qed.

Lemma append_nil_r (s : string) : s ++ "" = s.
Proof. induction s as [|c r IH]; [done|]. by rewrite append_cons, IH. Qed.

Lemma split_not_nil sep s : split sep s ≠ [].
Proof.
  destruct s as [|c r]; simpl; [done|].
  destruct (Ascii.eqb c sep); [done|]. by destruct (split sep r).
Qed.

(** What follows the first piece of a split. *)
Lemma split_cons_inv sep s h t :
  split sep s = h :: t →
  all_chars (λ c, negb (Ascii.eqb c sep)) h = true ∧
  ((t = [] ∧ s = h) ∨ (∃ r, s = h ++ String sep r ∧ split sep r = t)).
Proof.
  revert h t. induction s as [|c r IH]; intros h t; simpl.
  - intros [= <- <-]. split; [done|]. by left.
  - destruct (Ascii.eqb c sep) eqn:Hc.
    + apply Ascii.eqb_eq in Hc as ->. intros [= <- <-].
      split; [done|]. right. by exists r.
    + destruct (split sep r) as [|h' t'] eqn:Hr.
      { by apply split_not_nil in Hr. }
      intros [= <- <-].
      destruct (IH _ _ eq_refl) as [Hh [[-> ->]|(r' & -> & Hr')]].
      * simpl. rewrite Hc, Hh. split; [done|]. by left.
      * simpl. rewrite Hc, Hh. split; [done|]. right. by exists r'.
Qed.

(** Splitting does not lose characters: a property of all characters of
    all pieces, and of the separator, holds of the whole string. *)
Lemma split_all_chars q sep s :
  q sep = true →
  forallb (all_chars q) (split sep s) = true → all_chars q s = true.
Proof.
  intros Hsep. induction s as [|c r IH]; simpl; [done|].
  destruct (Ascii.eqb c sep) eqn:Hc.
  - apply Ascii.eqb_eq in Hc as ->. simpl. rewrite Hsep. exact IH.
  - destruct (split sep r) as [|h t] eqn:Hr.
    { by apply split_not_nil in Hr. }
    simpl in *. rewrite !andb_true_iff. intros [[Hq Hh] Ht].
    split; [done|]. apply IH. by rewrite Hh, Ht.
Qed.

Lemma spec_name_chars_not_newline s :
  spec_name_chars s = true → all_chars not_newline s = true.
Proof.
  induction s as [|c r IH]; simpl; [done|].
  rewrite !andb_true_iff. intros [[[_ _] Hn] Hr]. split; [done | auto].
Qed.

Lemma spec_name_chars_not_pipe s :
  spec_name_chars s = true → all_chars not_pipe s = true.
Proof.
  induction s as [|c r IH]; simpl; [done|].
  rewrite !andb_true_iff. intros [[[Hp _] _] Hr]. split; [done | auto].
Qed.

Lemma spec_name_spec s :
  spec_name s = true → s ≠ "" ∧ spec_name_chars s = true.
Proof. by destruct s. Qed.

(** A line of the grammar has no newline in its dependency text. *)
Lemma spec_deps_not_newline deps :
  forallb spec_name (split comma deps) = true →
  all_chars not_newline deps = true.
Proof.
  intros H. apply (split_all_chars not_newline comma); [done|].
  apply forallb_forall. intros tok Htok.
  rewrite forallb_forall in H.
  apply spec_name_chars_not_newline, spec_name_spec, H, Htok.
Qed.

(** The parser returns a request for every line of the grammar. *)
Lemma spec_line_accepted line :
  spec_line line = true →
  ∃ cmd nm deps,
    line = cmd ++ "|" ++ nm ++ "|" ++ deps ∧
    DataPackage_init line = Returned (mkPackage cmd nm (split_depends deps)).
Proof.
  unfold spec_line.
  destruct (split pipe line) as [|cmd [|nm [|deps [|? ?]]]] eqn:Hsplit;
    try done.
  rewrite !andb_true_iff, bool_decide_eq_true. intros [[Hcmd Hnm] Hdeps].
  apply split_cons_inv in Hsplit as [_ [[? _]|(r1 & -> & Hsplit)]]; [done|].
  apply split_cons_inv in Hsplit as [_ [[? _]|(r2 & -> & Hsplit)]]; [done|].
  apply split_cons_inv in Hsplit as [_ [[_ ->]|(r3 & _ & Hsplit)]];
    [|by apply split_not_nil in Hsplit].
  exists cmd, nm, deps. split; [done|].
  rewrite DataPackage_init_unfold.
  apply spec_name_spec in Hnm as [Hnm0 Hnm].
  destruct (valid_command_chars _ Hcmd) as [Hc0 Hc].
  assert (Hmatch : request_regex_match (cmd ++ "|" ++ nm ++ "|" ++ deps)
                   = Some (cmd, nm, deps)).
  { apply request_regex_match_spec. exists "".
    rewrite append_nil_r.
    repeat split; try done.
    - by apply spec_name_chars_not_pipe.
    - destruct deps; [done|]. by apply spec_deps_not_newline. }
  change (request_regex_match _)
    with (request_regex_match (cmd ++ "|" ++ nm ++ "|" ++ deps)).
  rewrite Hmatch. by rewrite bool_decide_eq_true_2.
Qed.

(** C5, as the claim states it, fails: the parser returns a request for
    inputs that are not lines of the grammar: a name with a comma, an
    empty dependency name, a dependency text with a '|'. *)
Lemma parser_accepts_outside_grammar :
  spec_line "INDEX|a,b|" = false ∧
  DataPackage_init "INDEX|a,b|" = Returned (mkPackage "INDEX" "a,b" []) ∧
  spec_line "INDEX|a|b,,c" = false ∧
  DataPackage_init "INDEX|a|b,,c" = Returned (mkPackage "INDEX" "a" ["b"; ""; "c"]) ∧
  spec_line "INDEX|a|b|c" = false ∧
  DataPackage_init "INDEX|a|b|c" = Returned (mkPackage "INDEX" "a" ["b|c"]) ∧
  ¬ (∀ line, returns (DataPackage_init line) ↔ spec_line line = true).
Proof.
  repeat split; try by vm_compute.
  intros H. specialize (H "INDEX|a,b|"). vm_compute in H.
  destruct H as [H _]. by specialize (H I).
Qed.

(** The inputs for which the parser returns a request, and the request
    returned. *)
Lemma DataPackage_init_returned s p :
  DataPackage_init s = Returned p ↔
  ∃ deps rest,
    s = command p ++ "|" ++ name p ++ "|" ++ deps ++ rest ∧
    command p ∈ VALID_COMMANDS ∧
    name p ≠ "" ∧ all_chars not_pipe (name p) = true ∧
    all_chars not_newline deps = true ∧ stops_at not_newline rest ∧
    pkg_dependencies p = split_depends deps.
Proof.
  rewrite DataPackage_init_unfold. split.
  - destruct (request_regex_match s) as [[[cmd nm] deps]|] eqn:Hm; [|done].
    destruct (bool_decide (cmd ∈ VALID_COMMANDS)) eqn:Hcmd; [|done].
    apply bool_decide_eq_true in Hcmd. intros [= <-]. simpl.
    apply request_regex_match_spec in Hm
      as (rest & -> & _ & _ & Hn0 & Hn & Hd & Hrest).
    by exists deps, rest.
  - intros (deps & rest & Hs & Hcmd & Hn0 & Hn & Hd & Hrest & Hdeps).
    destruct (valid_command_chars _ Hcmd) as [Hc0 Hc].
    assert (Hm : request_regex_match s = Some (command p, name p, deps)).
    { apply request_regex_match_spec. by exists rest. }
    rewrite Hm, bool_decide_eq_true_2, <- Hdeps by done. by destruct p.
Qed.

(** C5, amended: the parser returns a request exactly when the input
    starts with one of the three command literals, a '|', a name of one or
    more characters other than '|' (commas and newlines are taken), and a
    second '|'; the dependency text runs from there to the first newline
    or the end of the input and may hold '|'; it gives the empty list when
    empty and is otherwise split at every comma, empty pieces kept.  Every
    other input raises ValueError, and every line of the grammar is among
    the inputs taken. *)
Theorem parser_contract (s : string) :
  (∀ p, DataPackage_init s = Returned p ↔
     ∃ deps rest,
       s = command p ++ "|" ++ name p ++ "|" ++ deps ++ rest ∧
       command p ∈ VALID_COMMANDS ∧
       name p ≠ "" ∧ all_chars not_pipe (name p) = true ∧
       all_chars not_newline deps = true ∧ stops_at not_newline rest ∧
       pkg_dependencies p = split_depends deps) ∧
  (DataPackage_init s = Raised ValueError ∨ ∃ p, DataPackage_init s = Returned p) ∧
  (spec_line s = true → ∃ p, DataPackage_init s = Returned p).
Proof.
  split; [|split].
  - intros p. apply DataPackage_init_returned.
  - rewrite DataPackage_init_unfold.
    destruct (request_regex_match s) as [[[cmd nm] deps]|]; [|by left].
    destruct (bool_decide _); [right; eauto | by left].
  - intros (cmd & nm & deps & _ & H)%spec_line_accepted. eauto.
Qed.

Lemma parser_contract_witness :
  ∃ p, DataPackage_init "INDEX|cloog|gmp,isl,pkg-config" = Returned p.
Proof.
  apply (parser_contract "INDEX|cloog|gmp,isl,pkg-config"). by vm_compute.
Defined.

(** ** The connection handler *)

Lemma parsed_name_not_empty data req :
  DataPackage_init data = Returned req → name req ≠ "".
Proof.
  intros H. by apply DataPackage_init_returned in H as (? & ? & _ & _ & ? & _).
Qed.

Lemma add_package_command cmd package s :
  add_package (mkPackage cmd (name package) (pkg_dependencies package)) s
  = add_package package s.
Proof. done. Qed.

(** A name that is returned by a store operation called from the handler
    is true in a condition, the parsed name not being empty. *)
Lemma truthy_name_success (r : option string) key :
  key ≠ "" → (r = None ∨ r = Some key) → truthy_name r = success r.
Proof. intros Hkey [->| ->]; [done|]. by destruct key. Qed.

Lemma add_package_result package s r s' :
  add_package package s = (Returned r, s') → r = None ∨ r = Some (name package).
Proof.
  intros [(-> & _)|(-> & _)]%add_package_returned; [by left | by right].
Qed.

Lemma remove_package_result key s r s' :
  remove_package key s = (Returned r, s') → r = None ∨ r = Some key.
Proof.
  intros [(-> & _)|[(-> & _)|(-> & _)]]%remove_package_returned; auto.
Qed.

(** [process_request] parses the start of the chunk, makes the one store
    call of the parsed request, and maps its result to the response. *)
Lemma process_request_serve data s :
  process_request data s = serve_chunk data s.
Proof.
  unfold process_request, serve_chunk, request_op.
  destruct (DataPackage_init data) as [req|e] eqn:Hparse; [|done].
  pose proof (parsed_name_not_empty _ _ Hparse) as Hname.
  destruct (is_query req).
  - simpl. unfold find_package, dependencies_get. simpl.
    by destruct (dependencies s !! name req).
  - destruct (is_remove req).
    + simpl. destruct (remove_package (name req) s) as [[r|e] s'] eqn:Hrem;
        [|done].
      simpl. apply remove_package_result in Hrem.
      rewrite (truthy_name_success r (name req)) by done. by destruct r.
    + simpl. rewrite (add_package_command CMD_INDEX req).
      destruct (add_package req s) as [[r|e] s'] eqn:Hadd; [|done].
      simpl. apply add_package_result in Hadd.
      rewrite (truthy_name_success r (name req)) by done. by destruct r.
Qed.

(** C7, as the claim states it, fails: a chunk with two newline-terminated
    frames gets one response; the second frame is not looked at, and its
    package is not indexed. *)
Lemma two_frames_one_response :
  let chunk := "INDEX|a|" ++ nl ++ "INDEX|b|" ++ nl in
  spec_frames chunk = ["INDEX|a|"; "INDEX|b|"] ∧
  (handle [chunk] empty_store).1 = [RESPONSE_OK] ∧
  dependencies (handle [chunk] empty_store).2 !! "b" = None ∧
  length (handle [chunk] empty_store).1 ≠ length (spec_frames chunk).
Proof. by vm_compute. Qed.

(** C7, amended: the handler writes exactly one response line for every
    chunk it receives, however many frames the chunk holds, in the order
    of the chunks: ERROR when the chunk does not parse as a request or the
    store call raises, and otherwise OK when the call of the request at the
    start of the chunk returns success (index or remove done, query
    present) and FAIL when it returns the other value. *)
Theorem handle_one_response_per_chunk (chunks : list string) (s : store) :
  handle chunks s = serve_chunks chunks s ∧
  length (handle chunks s).1 = length chunks ∧
  Forall (λ reply, reply ∈ [RESPONSE_OK; RESPONSE_FAIL; RESPONSE_ERROR])
         (handle chunks s).1.
Proof.
  revert s. induction chunks as [|data rest IH]; intros s; simpl.
  - by repeat split.
  - rewrite process_request_serve.
    destruct (serve_chunk data s) as [reply s1] eqn:Hserve.
    destruct (IH s1) as (-> & Hlen & Hall).
    destruct (serve_chunks rest s1) as [replies s2]. simpl in *.
    split; [done|]. split; [by rewrite Hlen|].
    constructor; [|done].
    unfold serve_chunk in Hserve.
    destruct (DataPackage_init data) as [req|e].
    + destruct (exec (request_op req) s) as [[[|]|e] s'];
        injection Hserve as <- _; rewrite !elem_of_cons; auto.
    + injection Hserve as <- _. rewrite !elem_of_cons. auto.
Qed.

(** ** Lists without repetition *)

Lemma list_remove_sublist x l l' :
  list_remove x l = Some l' → l' `sublist_of` l.
Proof.
  revert l'. induction l as [|y l IH]; intros l'; simpl; [done|].
  destruct (decide (y = x)) as [->|Hne].
  - intros [= <-]. by apply sublist_cons.
  - destruct (list_remove x l) as [l0|]; [|done].
    intros [= <-]. by apply sublist_skip, IH.
Qed.

(** [l.remove(x)] on a list without repetition leaves no [x]. *)
Lemma list_remove_NoDup x l l' :
  NoDup l → list_remove x l = Some l' → x ∉ l'.
Proof.
  revert l'. induction l as [|y l IH]; intros l' Hnd; simpl; [done|].
  apply NoDup_cons in Hnd as [Hy Hnd].
  destruct (decide (y = x)) as [->|Hne].
  - by intros [= <-].
  - destruct (list_remove x l) as [l0|]; [|done].
    intros [= <-]. rewrite not_elem_of_cons. split; [done|]. by apply IH.
Qed.

#[local] Instance shrinks_preorder : PreOrder shrinks.
Proof.
  split.
  - intros s. split; [done|]. intros d l' Hl'. by exists l'.
  - intros s1 s2 s3 [Hf1 H1] [Hf2 H2]. split; [by trans s2|].
    intros d l3 Hl3. destruct (H2 _ _ Hl3) as (l2 & Hl2 & Hs2).
    destruct (H1 _ _ Hl2) as (l1 & Hl1 & Hs1).
    exists l1. split; [done|]. by trans l2.
Qed.

Lemma used_by_remove_shrinks item key :
  preserves shrinks (used_by_remove item key).
Proof.
  intros s. unfold used_by_remove, bind, used_by_getitem.
  destruct (used_by s !! item) as [l|] eqn:Hl; simpl; [|done].
  destruct (list_remove key l) as [l'|] eqn:Hrem; simpl; [|done].
  split; [by eapply same_frame_overwrite|].
  intros d l0. simpl. destruct (decide (item = d)) as [<-|Hne].
  - rewrite lookup_insert_eq. intros [= <-]. exists l.
    split; [done|]. by eapply list_remove_sublist.
  - rewrite lookup_insert_ne by done. intros Hl0. by exists l0.
Qed.

Lemma remove_usage_shrinks key items :
  preserves shrinks (remove_usage key items).
Proof.
  induction items as [|item rest IH]; simpl.
  - apply preserves_ret, _.
  - apply preserves_bind; [apply _ | apply used_by_remove_shrinks | done].
Qed.

(** When the loop runs to its end over lists without repetition, no list
    that it visited names the key any more. *)
Lemma remove_usage_returned key items s s' :
  (∀ d l, used_by s !! d = Some l → NoDup l) →
  remove_usage key items s = (Returned tt, s') →
  ∀ item l', item ∈ items → used_by s' !! item = Some l' → key ∉ l'.
Proof.
  revert s. induction items as [|x rest IH]; intros s Hnd Hrun item l' Hin Hl'.
  { by apply elem_of_nil in Hin. }
  simpl in Hrun. apply bind_returned in Hrun as ([] & s1 & Hstep & Hrest).
  pose proof (preserves_run _ _ _ _ _ (used_by_remove_shrinks x key) Hstep)
    as [_ Hsub1].
  pose proof (preserves_run _ _ _ _ _ (remove_usage_shrinks key rest) Hrest)
    as [_ Hsub2].
  assert (Hnd1 : ∀ d l, used_by s1 !! d = Some l → NoDup l).
  { intros d l Hl. destruct (Hsub1 _ _ Hl) as (l0 & Hl0 & Hs).
    eapply sublist_NoDup; [by eapply Hnd | done]. }
  apply elem_of_cons in Hin as [->|Hin]; [|by eapply (IH s1)].
  destruct (Hsub2 _ _ Hl') as (l1 & Hl1 & Hs1).
  intros Hkey. apply (elem_of_sublist _ _ _ Hkey) in Hs1.
  revert Hstep Hl1 Hs1. unfold used_by_remove, bind, used_by_getitem.
  destruct (used_by s !! x) as [l|] eqn:Hl; [|done].
  destruct (list_remove key l) as [l0|] eqn:Hrem; [|done].
  unfold used_by_setitem. intros [= <-]. simpl.
  rewrite lookup_insert_eq. intros [= <-] Hin.
  eapply list_remove_NoDup in Hrem; [done | by eapply Hnd].
Qed.

(** ** The invariant kept under requests without repeated dependencies *)

Lemma tidy_empty : tidy empty_store.
Proof.
  split; [|split].
  - intros k. simpl. by rewrite !lookup_empty.
  - split; intros k l; simpl; by rewrite lookup_empty.
  - intros d p (l & Hl & _). simpl in Hl. by rewrite lookup_empty in Hl.
Qed.

Lemma tidy_shrinks s s' : tidy s → shrinks s s' → tidy s'.
Proof.
  intros (Hkeys & [Hnd1 Hnd2] & Hback) [[Hd Hk] Hsub].
  split; [|split].
  - intros k. by rewrite Hd, Hk.
  - split.
    + intros p l. rewrite Hd. apply Hnd1.
    + intros d l' Hl'. destruct (Hsub _ _ Hl') as (l & Hl & Hs).
      eapply sublist_NoDup; [by eapply Hnd2 | done].
  - intros d p (l' & Hl' & Hin). destruct (Hsub _ _ Hl') as (l & Hl & Hs).
    unfold depends_on. rewrite Hd. apply Hback. exists l.
    split; [done|]. by eapply elem_of_sublist.
Qed.

(** No list of the reverse map names a package that is not a key. *)
Lemma tidy_not_used s key d l :
  tidy s → used_by s !! key = None → used_by s !! d = Some l → key ∉ l.
Proof.
  intros (Hkeys & _ & Hback) Hkey Hl Hin.
  destruct (Hback d key) as (l' & Hl' & _); [by exists l|].
  assert (is_Some (used_by s !! key)) as [? ?] by (apply Hkeys; eauto).
  congruence.
Qed.

(** The loop that records the reverse entries, for a package that is not
    a key of the reverse map, over dependencies that are: it runs to its
    end and appends the package once to the list of each dependency. *)
Lemma add_usage_fresh key deps s :
  used_by s !! key = None →
  (∀ x, x ∈ deps → is_Some (used_by s !! x)) →
  NoDup deps →
  ∃ s2, add_usage key deps s = (Returned tt, s2) ∧
        dependencies s2 = dependencies s ∧
        ∀ d, used_by s2 !! d =
             if decide (d ∈ deps)
             then (λ l : list string, (l ++ [key])%list) <$> used_by s !! d
             else used_by s !! d.
Proof.
  revert s. induction deps as [|x rest IH]; intros s Hkey Hdeps Hnd.
  { exists s. split; [done|]. split; [done|]. intros d.
    destruct (decide (d ∈ [])) as [Hin|_]; [|done]. by apply elem_of_nil in Hin. }
  apply NoDup_cons in Hnd as [Hx Hnd].
  destruct (Hdeps x) as [l Hl]; [by left|].
  assert (Hne : x ≠ key) by congruence.
  pose (s1 := mkStore (<[x := (l ++ [key])%list]> (used_by s)) (dependencies s)).
  assert (Hstep : add_usage key (x :: rest) s = add_usage key rest s1).
  { simpl. unfold bind at 1, bind at 1, used_by_contains, has_key.
    rewrite Hkey. unfold used_by_append, bind, used_by_getitem. by rewrite Hl. }
  destruct (IH s1) as (s2 & Hrun & Hd & Hu).
  - simpl. by rewrite lookup_insert_ne.
  - intros y Hy. simpl. destruct (decide (x = y)) as [->|Hxy].
    + rewrite lookup_insert_eq. eauto.
    + rewrite lookup_insert_ne by done. apply Hdeps. by right.
  - done.
  - exists s2. split; [by rewrite Hstep|]. split; [done|].
    intros d. rewrite Hu. simpl.
    destruct (decide (x = d)) as [<-|Hxd].
    + rewrite lookup_insert_eq, Hl.
      rewrite decide_False by done. rewrite decide_True by by left. done.
    + rewrite lookup_insert_ne by done.
      destruct (decide (d ∈ rest)) as [Hin|Hin].
      * by rewrite decide_True by by right.
      * rewrite decide_False; [done|]. rewrite elem_of_cons.
        intros [Heq|?]; [by subst | done].
Qed.

Lemma bind_run {A B : Type} (m : M A) (k : A → M B) s r s1 :
  m s = (r, s1) →
  bind m k s = match r with
               | Returned a => k a s1
               | Raised e => (Raised e, s1)
               end.
Proof. intros H. unfold bind. by rewrite H. Qed.

Lemma drop_stale_usage_shrinks package prev :
  preserves shrinks (drop_stale_usage package prev).
Proof.
  unfold drop_stale_usage. destruct (truthy_list prev).
  - apply remove_usage_shrinks.
  - apply preserves_ret, _.
Qed.

(** [add_package_body] for a package that is a key of the reverse map:
    the clean-up, then the new forward entry; no reverse entry is
    written. *)
Lemma add_package_body_known package s r s1 :
  is_Some (used_by s !! name package) →
  drop_stale_usage package (dependencies s !! name package) s = (r, s1) →
  add_package_body package s =
  match r with
  | Returned _ =>
      (Returned (Some (name package)),
       mkStore (used_by s1)
               (<[name package := pkg_dependencies package]> (dependencies s1)))
  | Raised e => (Raised e, s1)
  end.
Proof.
  intros Hkey Hdrop.
  pose proof (preserves_run _ _ _ _ _ (drop_stale_usage_frame _ _) Hdrop)
    as [_ Hk].
  unfold add_package_body, bind at 1, dependencies_get.
  rewrite (bind_run _ _ _ _ _ Hdrop). destruct r as [[]|e]; [|done].
  assert (Hkey1 : has_key (used_by s1) (name package) = true).
  { by apply has_key_true, Hk. }
  rewrite (bind_run _ _ _ _ _ (add_usage_known _ _ _ Hkey1)).
  unfold bind at 1, dependencies_setitem.
  unfold bind at 1, ensure_used_by, bind, used_by_contains. simpl.
  by rewrite Hkey1.
Qed.

(** [add_package_body] for a package that is in neither map, whose
    dependencies, none repeated, are keys of the reverse map. *)
Lemma add_package_body_fresh package s :
  used_by s !! name package = None →
  dependencies s !! name package = None →
  (∀ x, x ∈ pkg_dependencies package → is_Some (used_by s !! x)) →
  NoDup (pkg_dependencies package) →
  ∃ s2,
    add_package_body package s =
      (Returned (Some (name package)),
       mkStore (<[name package := []]> (used_by s2))
               (<[name package := pkg_dependencies package]> (dependencies s))) ∧
    ∀ d, used_by s2 !! d =
         if decide (d ∈ pkg_dependencies package)
         then (λ l : list string, (l ++ [name package])%list) <$> used_by s !! d
         else used_by s !! d.
Proof.
  intros Hkey Hprev Hdeps Hnd.
  destruct (add_usage_fresh _ _ _ Hkey Hdeps Hnd) as (s2 & Hrun & Hd & Hu).
  exists s2. split; [|done].
  unfold add_package_body, bind at 1, dependencies_get.
  rewrite Hprev. unfold drop_stale_usage. simpl. unfold bind at 1, ret at 1.
  rewrite (bind_run _ _ _ _ _ Hrun).
  unfold bind at 1, dependencies_setitem.
  unfold bind at 1, ensure_used_by, bind, used_by_contains, has_key. simpl.
  rewrite Hu, Hkey. rewrite Hd. by destruct (decide _).
Qed.

Lemma some_not_indexed_dec s deps :
  some_not_indexed s deps ∨ ¬ some_not_indexed s deps.
Proof.
  rewrite <- any_not_indexed_true. destruct (existsb _ _); [by left | by right].
Qed.

Lemma add_package_tidy package s :
  tidy s → NoDup (pkg_dependencies package) → tidy (add_package package s).2.
Proof.
  intros Htidy Hnd.
  destruct (some_not_indexed_dec s (pkg_dependencies package)) as [Hm|Hm].
  { by rewrite add_package_refuses. }
  rewrite add_package_proceeds by done.
  pose proof Htidy as (Hkeys & [Hnd1 Hnd2] & Hback).
  assert (Hdeps : ∀ x, x ∈ pkg_dependencies package → is_Some (used_by s !! x)).
  { intros x Hx. apply Hkeys. destruct (dependencies s !! x) eqn:Hdx; [eauto|].
    destruct Hm. by exists x. }
  destruct (used_by s !! name package) as [lu|] eqn:Hkey.
  - (* the package is indexed already *)
    destruct (drop_stale_usage package (dependencies s !! name package) s)
      as [r s1] eqn:Hdrop.
    pose proof (preserves_run _ _ _ _ _ (drop_stale_usage_shrinks _ _) Hdrop)
      as Hshr.
    pose proof (tidy_shrinks _ _ Htidy Hshr) as Htidy1.
    rewrite (add_package_body_known _ _ _ _ (mk_is_Some _ _ Hkey) Hdrop).
    destruct r as [[]|e]; [|done]. simpl.
    destruct Htidy1 as (Hkeys1 & [Hnd11 Hnd12] & Hback1).
    destruct Hshr as [[Hd Hk] Hsub].
    split; [|split].
    + intros k. simpl. destruct (decide (name package = k)) as [<-|Hne].
      * rewrite lookup_insert_eq. split; [|eauto]. intros _. apply Hk. eauto.
      * rewrite lookup_insert_ne by done. apply Hkeys1.
    + split; [|done]. intros p l. simpl.
      destruct (decide (name package = p)) as [<-|Hne].
      * rewrite lookup_insert_eq. by intros [= <-].
      * rewrite lookup_insert_ne by done. apply Hnd11.
    + intros d p (l' & Hl' & Hin). simpl in Hl'. unfold depends_on. simpl.
      destruct (decide (name package = p)) as [<-|Hne].
      * rewrite lookup_insert_eq. eexists. split; [done|].
        destruct (decide (d ∈ pkg_dependencies package)) as [|Hd']; [done|].
        exfalso.
        destruct (Hback1 d (name package)) as (lp & Hlp & Hdlp); [by exists l'|].
        rewrite Hd in Hlp. rewrite Hlp in Hdrop.
        unfold drop_stale_usage in Hdrop.
        destruct lp as [|y lp]; [by apply elem_of_nil in Hdlp|].
        simpl in Hdrop.
        eapply (remove_usage_returned _ _ _ _ Hnd2 Hdrop d l'); [|done|done].
        by apply list_elem_of_filter.
      * rewrite lookup_insert_ne by done. apply Hback1. by exists l'.
  - (* the package is new *)
    assert (Hprev : dependencies s !! name package = None).
    { destruct (dependencies s !! name package) eqn:Hp; [|done].
      assert (is_Some (used_by s !! name package)) as [? ?]
        by (apply Hkeys; eauto).
      congruence. }
    destruct (add_package_body_fresh _ _ Hkey Hprev Hdeps Hnd) as (s2 & -> & Hu).
    simpl. split; [|split].
    + intros k. simpl. destruct (decide (name package = k)) as [<-|Hne].
      * rewrite !lookup_insert_eq. split; eauto.
      * rewrite !lookup_insert_ne by done. rewrite Hu.
        destruct (decide _); [|apply Hkeys].
        rewrite fmap_is_Some. apply Hkeys.
    + split.
      * intros p l. simpl. destruct (decide (name package = p)) as [<-|Hne].
        -- rewrite lookup_insert_eq. by intros [= <-].
        -- rewrite lookup_insert_ne by done. apply Hnd1.
      * intros d l. simpl. destruct (decide (name package = d)) as [<-|Hne].
        -- rewrite lookup_insert_eq. intros [= <-]. constructor.
        -- rewrite lookup_insert_ne by done. rewrite Hu.
           destruct (decide _); [|apply Hnd2].
           destruct (used_by s !! d) as [l0|] eqn:Hl0; [|done].
           simpl. intros [= <-]. apply NoDup_app.
           split; [by eapply Hnd2|]. split; [|apply NoDup_singleton].
           intros x Hx ->%list_elem_of_singleton.
           by eapply tidy_not_used.
    + intros d p (l' & Hl' & Hin). simpl in Hl'. unfold depends_on. simpl.
      destruct (decide (name package = d)) as [<-|Hne].
      { rewrite lookup_insert_eq in Hl'. injection Hl' as <-.
        by apply elem_of_nil in Hin. }
      rewrite lookup_insert_ne in Hl' by done. rewrite Hu in Hl'.
      destruct (decide (name package = p)) as [<-|Hnp].
      * rewrite lookup_insert_eq. eexists. split; [done|].
        destruct (decide (d ∈ pkg_dependencies package)) as [|_]; [done|].
        exfalso. by eapply tidy_not_used.
      * rewrite lookup_insert_ne by done. apply Hback.
        destruct (decide _); [|by exists l'].
        destruct (used_by s !! d) as [l0|] eqn:Hl0; [|done].
        simpl in Hl'. injection Hl' as <-. exists l0. split; [done|].
        apply elem_of_app in Hin as [|Hin%list_elem_of_singleton]; done.
Qed.

Lemma remove_package_tidy key s : tidy s → tidy (remove_package key s).2.
Proof.
  intros Htidy. pose proof Htidy as (Hkeys & [Hnd1 Hnd2] & Hback).
  unfold remove_package, bind at 1, find_package, dependencies_get.
  destruct (dependencies s !! key) as [val|] eqn:Hval; [|done].
  unfold bind at 1, used_by_get.
  destruct (truthy_list (used_by s !! key)); [done|].
  destruct (remove_usage key val s) as [r s1] eqn:Hrun.
  pose proof (preserves_run _ _ _ _ _ (remove_usage_shrinks _ _) Hrun) as Hshr.
  pose proof (tidy_shrinks _ _ Htidy Hshr) as Htidy1.
  rewrite (bind_run _ _ _ _ _ Hrun). destruct r as [[]|e]; [|done].
  unfold bind, pop_both, ret. simpl.
  destruct Htidy1 as (Hkeys1 & [Hnd11 Hnd12] & Hback1).
  destruct Hshr as [[Hd Hk] Hsub].
  split; [|split].
  - intros k. simpl. destruct (decide (key = k)) as [<-|Hne].
    + rewrite !lookup_delete_eq. split; by intros [? ?].
    + rewrite !lookup_delete_ne by done. apply Hkeys1.
  - split.
    + intros p l. simpl. intros [_ Hl]%lookup_delete_Some. by eapply Hnd11.
    + intros d l. simpl. intros [_ Hl]%lookup_delete_Some. by eapply Hnd12.
  - intros d p (l' & Hl' & Hin). simpl in Hl'.
    apply lookup_delete_Some in Hl' as [Hkd Hl'].
    destruct (Hback1 d p) as (lp & Hlp & Hdlp); [by exists l'|].
    exists lp. split; [|done]. simpl.
    rewrite lookup_delete_ne; [done|]. intros <-.
    rewrite Hd, Hval in Hlp. injection Hlp as <-.
    by eapply (remove_usage_returned _ _ _ _ Hnd2 Hrun d l').
Qed.

Lemma exec_tidy o s : tidy s → no_repeated_dependency o → tidy (exec o s).2.
Proof.
  intros Htidy Ho. destruct o as [nm deps|nm|nm]; simpl.
  - pose proof (add_package_tidy (mkPackage CMD_INDEX nm deps) s Htidy Ho) as H.
    by destruct (add_package _ s).
  - pose proof (remove_package_tidy nm s Htidy) as H.
    by destruct (remove_package nm s).
  - done.
Qed.

Lemma run_snoc ops o s : run (ops ++ [o]) s = (exec o (run ops s)).2.
Proof. unfold run. by rewrite foldl_app. Qed.

Lemma run_tidy ops :
  Forall no_repeated_dependency ops → tidy (run ops empty_store).
Proof.
  induction ops as [|o ops IH] using rev_ind; intros Hops.
  - apply tidy_empty.
  - apply Forall_app in Hops as [Hops Ho]. rewrite Forall_singleton in Ho.
    rewrite run_snoc. apply exec_tidy; [by apply IH | done].
Qed.

(** ** Repetitions in the stored lists *)

(** C6, as the claim states it, fails: INDEX b with the dependency a
    listed twice returns success and stores the list as given, and b is
    listed twice as a user of a. *)
Lemma duplicates_are_kept :
  let s := run [Index "a" []; Index "b" ["a"; "a"]] empty_store in
  reachable s ∧
  dependencies s !! "b" = Some ["a"; "a"] ∧
  used_by s !! "a" = Some ["b"; "b"] ∧
  ¬ set_semantics s.
Proof.
  cbv zeta. split; [by eexists|].
  split; [by vm_compute|]. split; [by vm_compute|].
  intros [H _]. specialize (H "b" ["a"; "a"]).
  assert (Hnd : NoDup ["a"; "a"]) by (apply H; by vm_compute).
  apply NoDup_cons in Hnd as [Hnotin _]. apply Hnotin, list_elem_of_here.
Qed.

(** C6, amended: a successful index stores the dependency list exactly as
    it is given, repetitions kept; and in every store reached by
    operations whose index requests repeat no dependency, no stored list
    of dependencies or of users names a package twice. *)
Theorem stored_lists :
  (∀ package s n s',
     add_package package s = (Returned (Some n), s') →
     dependencies s' !! name package = Some (pkg_dependencies package)) ∧
  (∀ ops,
     Forall no_repeated_dependency ops →
     set_semantics (run ops empty_store)).
Proof.
  split.
  - intros package s n s' H.
    apply add_package_returned in H as [(? & _)|(_ & _ & s2 & _ & ->)];
      [done|].
    simpl. by rewrite lookup_insert_eq.
  - intros ops Hops. by destruct (run_tidy ops Hops) as (_ & ? & _).
Qed.

Lemma stored_lists_witness :
  set_semantics
    (run [Index "gmp" []; Index "isl" ["gmp"]; Index "cloog" ["gmp"; "isl"];
          Remove "cloog"] empty_store).
Proof.
  apply stored_lists. repeat constructor; simpl; try done.
  - set_solver.
  - apply not_elem_of_cons. split; [done|]. apply not_elem_of_nil.
  - apply not_elem_of_nil.
Defined.

(** ** Round trip of index, remove and query *)

Lemma exec_index_success nm deps s s' :
  exec (Index nm deps) s = (Returned true, s') →
  ¬ some_not_indexed s deps ∧
  ∃ s2, same_frame s s2 ∧ s' = indexed (mkPackage CMD_INDEX nm deps) s2.
Proof.
  simpl. destruct (add_package _ s) as [[r|e] s1] eqn:Hadd; [|done].
  intros [= Hr <-].
  apply add_package_returned in Hadd as [(-> & _ & _)|(_ & Hm & Hs)]; done.
Qed.

Lemma exec_remove_success nm s s' :
  exec (Remove nm) s = (Returned true, s') →
  dependencies s' !! nm = None.
Proof.
  simpl. destruct (remove_package nm s) as [[r|e] s1] eqn:Hrem; [|done].
  intros [= Hr <-].
  apply remove_package_returned in Hrem
    as [(_ & -> & Hnone)|[(-> & _)|(_ & _ & val & s2 & _ & _ & ->)]];
    [done | done |].
  simpl. apply lookup_delete_eq.
Qed.

(** A chunk that parses as a query gets the response for the query. *)
Lemma process_request_query data req x s :
  DataPackage_init data = Returned req → request_op req = Query x →
  process_request data s
  = (response (exec (Query x) s).1, (exec (Query x) s).2).
Proof.
  intros Hparse Hop. rewrite process_request_serve. unfold serve_chunk.
  rewrite Hparse, Hop. by destruct (exec (Query x) s).
Qed.

(** C10: after an index of [x] that returns success, a query of [x]
    reports it present, and every chunk that parses as a query of [x] is
    answered OK; after a remove of [x] that returns success, a query of
    [x] reports it absent, and every such chunk is answered FAIL.  The
    query leaves the store as it is. *)
Theorem round_trip (o : op) (s s' : store) :
  exec o s = (Returned true, s') →
  match o with
  | Index x _ | Query x =>
      exec (Query x) s' = (Returned true, s') ∧
      ∀ data req, DataPackage_init data = Returned req →
                  request_op req = Query x →
                  process_request data s' = (RESPONSE_OK, s')
  | Remove x =>
      exec (Query x) s' = (Returned false, s') ∧
      ∀ data req, DataPackage_init data = Returned req →
                  request_op req = Query x →
                  process_request data s' = (RESPONSE_FAIL, s')
  end.
Proof.
  intros H.
  assert (Hq : match o with
               | Index x _ | Query x => exec (Query x) s' = (Returned true, s')
               | Remove x => exec (Query x) s' = (Returned false, s')
               end).
  { destruct o as [x deps|x|x].
    - apply exec_index_success in H as (_ & s2 & _ & ->).
      simpl. unfold find_package, dependencies_get. simpl.
      by rewrite lookup_insert_eq.
    - apply exec_remove_success in H.
      simpl. unfold find_package, dependencies_get. by rewrite H.
    - simpl in *. unfold find_package, dependencies_get in *.
      injection H as H <-. by rewrite H. }
  destruct o as [x deps|x|x]; (split; [done|]);
    intros data req Hparse Hop;
    rewrite (process_request_query _ _ _ _ Hparse Hop); by rewrite Hq.
Qed.

Lemma round_trip_witness :
  let s' := run [Index "x" []] empty_store in
  exec (Index "x" []) empty_store = (Returned true, s') ∧
  exec (Query "x") s' = (Returned true, s') ∧
  process_request ("QUERY|x|" ++ nl) s' = (RESPONSE_OK, s').
Proof.
  cbv zeta.
  assert (H : exec (Index "x" []) empty_store
              = (Returned true, run [Index "x" []] empty_store))
    by by vm_compute.
  split; [done|].
  destruct (round_trip (Index "x" []) empty_store _ H) as [Hq Hr].
  split; [done|].
  apply (Hr _ (mkPackage CMD_QUERY "x" [])); by vm_compute.
Defined.

(** * Further properties of the store *)

(** ** The ways an operation can end *)

Lemma raise_run {A : Type} (m : M A) s e s' :
  m s = (Raised e, s') → ∀ B (k : A → M B), bind m k s = (Raised e, s').
Proof. intros H B k. unfold bind. by rewrite H. Qed.

(** A raising [add_package] has written to lists of the reverse map
    only. *)
Lemma add_package_raised package s e s' :
  add_package package s = (Raised e, s') → same_frame s s'.
Proof.
  destruct (some_not_indexed_dec s (pkg_dependencies package)) as [Hm|Hm].
  { by rewrite add_package_refuses. }
  rewrite add_package_proceeds by done.
  unfold add_package_body, bind at 1, dependencies_get.
  destruct (drop_stale_usage package (dependencies s !! name package) s)
    as [r1 s1] eqn:Hdrop.
  pose proof (preserves_run _ _ _ _ _ (drop_stale_usage_frame _ _) Hdrop) as Hf1.
  rewrite (bind_run _ _ _ _ _ Hdrop).
  destruct r1 as [[]|e1]; [|by intros [= _ <-]].
  destruct (add_usage (name package) (pkg_dependencies package) s1)
    as [r2 s2] eqn:Hadd.
  pose proof (preserves_run _ _ _ _ _ (add_usage_frame _ _) Hadd) as Hf2.
  rewrite (bind_run _ _ _ _ _ Hadd).
  destruct r2 as [[]|e2]; [|intros [= _ <-]; by trans s1].
  unfold bind at 1, dependencies_setitem.
  unfold bind at 1, ensure_used_by, bind, used_by_contains. simpl.
  by destruct (has_key (used_by s2) (name package)).
Qed.

(** A raising [remove_package] has only taken entries out of lists of the
    reverse map. *)
Lemma remove_package_raised key s e s' :
  remove_package key s = (Raised e, s') → shrinks s s'.
Proof.
  unfold remove_package, bind at 1, find_package, dependencies_get.
  destruct (dependencies s !! key) as [val|]; [|done].
  unfold bind at 1, used_by_get.
  destruct (truthy_list (used_by s !! key)); [done|].
  destruct (remove_usage key val s) as [r s1] eqn:Hrun.
  pose proof (preserves_run _ _ _ _ _ (remove_usage_shrinks _ _) Hrun) as Hshr.
  rewrite (bind_run _ _ _ _ _ Hrun). destruct r as [[]|e1]; [done|].
  by intros [= _ <-].
Qed.

(** ** Removal *)

Lemma remove_package_refuses key s :
  (remove_package key s).1 = Returned None
  ↔ is_Some (dependencies s !! key) ∧ ∃ u us, used_by s !! key = Some (u :: us).
Proof.
  split.
  - destruct (remove_package key s) as [[r|e] s'] eqn:Hrem; [|done].
    simpl. intros [= ->].
    apply remove_package_returned in Hrem
      as [(? & _)|[(_ & _ & Hidx & Hused)|(? & _)]]; [done| |done].
    split; [done|].
    destruct (used_by s !! key) as [[|u us]|]; try done. by exists u, us.
  - intros [[val Hval] (u & us & Hus)].
    unfold remove_package, bind, find_package, dependencies_get, used_by_get.
    by rewrite Hval, Hus.
Qed.

(** X1: [remove_package] returns [None] exactly when the package is
    indexed and its list of users is not empty, and then it leaves the
    store as it is. *)
Theorem remove_package_refused_iff (key : string) (s : store) :
  ((remove_package key s).1 = Returned None
   ↔ is_Some (dependencies s !! key) ∧ ∃ u us, used_by s !! key = Some (u :: us)) ∧
  ((remove_package key s).1 = Returned None → (remove_package key s).2 = s).
Proof.
  split; [apply remove_package_refuses|].
  intros [[val Hval] (u & us & Hus)]%remove_package_refuses.
  unfold remove_package, bind, find_package, dependencies_get, used_by_get.
  by rewrite Hval, Hus.
Qed.

Lemma remove_package_refused_iff_witness :
  (remove_package "a" (run [Index "a" []; Index "b" ["a"]] empty_store)).2
  = run [Index "a" []; Index "b" ["a"]] empty_store.
Proof.
  apply (remove_package_refused_iff "a"
           (run [Index "a" []; Index "b" ["a"]] empty_store)).
  by vm_compute.
Defined.

(** X2: when [remove_package] returns the key, the package is not indexed
    afterwards, and removing it again returns the key and changes
    nothing. *)
Theorem remove_package_idempotent (key r : string) (s s1 : store) :
  remove_package key s = (Returned (Some r), s1) →
  r = key ∧ dependencies s1 !! key = None ∧
  remove_package key s1 = (Returned (Some key), s1).
Proof.
  intros H.
  assert (Hr : r = key ∧ dependencies s1 !! key = None).
  { apply remove_package_returned in H
      as [([= ->] & -> & Hnone)|[(? & _)|([= ->] & _ & val & s2 & _ & _ & ->)]];
      [done | done |].
    split; [done|]. simpl. apply lookup_delete_eq. }
  destruct Hr as [-> Hnone]. split; [done|]. split; [done|].
  unfold remove_package, bind, find_package, dependencies_get.
  by rewrite Hnone.
Qed.

Lemma remove_package_idempotent_witness :
  remove_package "b" (run [Index "a" []; Index "b" ["a"]; Remove "b"] empty_store)
  = (Returned (Some "b"),
     run [Index "a" []; Index "b" ["a"]; Remove "b"] empty_store).
Proof.
  apply (remove_package_idempotent "b" "b"
           (run [Index "a" []; Index "b" ["a"]] empty_store)).
  by vm_compute.
Defined.

(** ** What every reachable store satisfies *)

Lemma same_frame_key_symmetric s s' :
  same_frame s s' → key_symmetric s → key_symmetric s'.
Proof. intros [Hd Hk] Hs k. rewrite Hd, Hk. apply Hs. Qed.

Lemma indexed_key_symmetric package s2 :
  key_symmetric s2 → key_symmetric (indexed package s2).
Proof.
  intros Hs k. unfold indexed. simpl.
  destruct (decide (name package = k)) as [<-|Hne].
  - rewrite lookup_insert_eq.
    destruct (has_key (used_by s2) (name package)) eqn:Hk.
    + apply has_key_true in Hk. split; eauto.
    + rewrite lookup_insert_eq. split; eauto.
  - rewrite lookup_insert_ne by done.
    destruct (has_key (used_by s2) (name package)); [apply Hs|].
    rewrite lookup_insert_ne by done. apply Hs.
Qed.

Lemma exec_key_symmetric o s : key_symmetric s → key_symmetric (exec o s).2.
Proof.
  intros Hs. destruct o as [nm deps|nm|nm]; simpl.
  - destruct (add_package _ s) as [[r|e] s'] eqn:Hadd; simpl.
    + apply add_package_returned in Hadd
        as [(_ & -> & _)|(_ & _ & s2 & Hf & ->)]; [done|].
      by eapply indexed_key_symmetric, same_frame_key_symmetric.
    + apply add_package_raised in Hadd. by eapply same_frame_key_symmetric.
  - destruct (remove_package nm s) as [[r|e] s'] eqn:Hrem; simpl.
    + apply remove_package_returned in Hrem
        as [(_ & -> & _)|[(_ & -> & _)|(_ & _ & val & s1 & _ & Hrun & ->)]];
        [done | done |].
      pose proof (preserves_run _ _ _ _ _ (remove_usage_frame _ _) Hrun) as Hf.
      pose proof (same_frame_key_symmetric _ _ Hf Hs) as Hs1.
      intros k. simpl. destruct (decide (nm = k)) as [<-|Hne].
      * rewrite !lookup_delete_eq. split; by intros [? ?].
      * rewrite !lookup_delete_ne by done. apply Hs1.
    + apply remove_package_raised in Hrem as [Hf _].
      by eapply same_frame_key_symmetric.
  - done.
Qed.

Lemma run_key_symmetric ops : key_symmetric (run ops empty_store).
Proof.
  induction ops as [|o ops IH] using rev_ind.
  - intros k. simpl. by rewrite !lookup_empty.
  - rewrite run_snoc. by apply exec_key_symmetric.
Qed.

(** X3: in every store reached from the empty store, by any calls and
    whether they return or raise, the two maps have the same keys. *)
Theorem reachable_key_symmetric (s : store) : reachable s → key_symmetric s.
Proof. intros [ops <-]. apply run_key_symmetric. Qed.

Lemma reachable_key_symmetric_witness : key_symmetric orphaned.
Proof.
  apply reachable_key_symmetric.
  by exists [Index "a" []; Index "b" []; Index "b" ["a"]; Remove "a"].
Defined.

Lemma exec_forward_frame (o : op) (s : store) :
  (∀ q, q ≠ op_name o →
        dependencies (exec o s).2 !! q = dependencies s !! q) ∧
  ((exec o s).1 ≠ Returned true →
   dependencies (exec o s).2 = dependencies s).
Proof.
  destruct o as [nm deps|nm|nm]; simpl.
  - destruct (add_package _ s) as [[r|e] s'] eqn:Hadd; simpl.
    + apply add_package_returned in Hadd
        as [(-> & -> & _)|(-> & _ & s2 & [Hd _] & ->)].
      * done.
      * simpl. split; [|done]. intros q Hq.
        by rewrite lookup_insert_ne, Hd.
    + apply add_package_raised in Hadd as [Hd _]. by rewrite Hd.
  - destruct (remove_package nm s) as [[r|e] s'] eqn:Hrem; simpl.
    + apply remove_package_returned in Hrem
        as [(_ & -> & _)|[(_ & -> & _)|(-> & _ & val & s1 & _ & Hrun & ->)]];
        [done | done |].
      pose proof (preserves_run _ _ _ _ _ (remove_usage_frame _ _) Hrun)
        as [Hd _].
      simpl. split; [|done]. intros q Hq.
      by rewrite lookup_delete_ne, Hd.
    + apply remove_package_raised in Hrem as [[Hd _] _]. by rewrite Hd.
  - done.
Qed.

(** X4: a call changes the forward map at most at the package it names,
    and not at all unless it returns success: a call that refuses, reports
    absence or raises leaves every forward entry as it was. *)
Theorem exec_forward_map (o : op) (s : store) :
  (∀ q, q ≠ op_name o →
        dependencies (exec o s).2 !! q = dependencies s !! q) ∧
  ((exec o s).1 ≠ Returned true →
   dependencies (exec o s).2 = dependencies s).
Proof. apply exec_forward_frame. Qed.

Lemma exec_forward_map_witness :
  dependencies (exec (Remove "b") reindexed).2 = dependencies reindexed.
Proof.
  apply (exec_forward_map (Remove "b") reindexed). by vm_compute.
Defined.

Lemma response_ok_inv r : response r = RESPONSE_OK → r = Returned true.
Proof. by destruct r as [[|]|e]. Qed.

(** X5: a chunk that is not answered OK leaves every forward entry as it
    was, so the answers to later queries are not changed by it; and a
    chunk that parses as a query leaves the whole store as it is, whatever
    the answer. *)
Theorem process_request_unanswered (data : string) (s : store) :
  ((process_request data s).1 ≠ RESPONSE_OK →
   dependencies (process_request data s).2 = dependencies s) ∧
  (∀ req x, DataPackage_init data = Returned req →
            request_op req = Query x → (process_request data s).2 = s).
Proof.
  rewrite process_request_serve. unfold serve_chunk. split.
  - destruct (DataPackage_init data) as [req|e]; [|done].
    pose proof (exec_forward_frame (request_op req) s) as [_ H].
    destruct (exec (request_op req) s) as [r s'] eqn:Hexec. simpl in *.
    intros Hne. apply H. intros ->. by apply Hne.
  - intros req x -> ->. simpl. unfold find_package, dependencies_get. done.
Qed.

Lemma process_request_unanswered_witness :
  dependencies (process_request ("REMOVE|b|" ++ nl) reindexed).2
  = dependencies reindexed.
Proof.
  apply (process_request_unanswered ("REMOVE|b|" ++ nl) reindexed).
  by vm_compute.
Defined.

(** ** Indexing a package that is not indexed *)

(** The loop that records the reverse entries, for a package that is not
    a key of the reverse map, over dependencies that are keys: it runs to
    its end, it only appends, and the list of every dependency names the
    package afterwards. *)
Lemma add_usage_new key deps s :
  used_by s !! key = None →
  (∀ x, x ∈ deps → is_Some (used_by s !! x)) →
  ∃ s2, add_usage key deps s = (Returned tt, s2) ∧
        same_frame s s2 ∧
        (∀ d l, used_by s !! d = Some l →
                ∃ l2, used_by s2 !! d = Some l2 ∧ ∀ p, p ∈ l → p ∈ l2) ∧
        (∀ d, d ∈ deps → ∃ l2, used_by s2 !! d = Some l2 ∧ key ∈ l2).
Proof.
  revert s. induction deps as [|x rest IH]; intros s Hkey Hdeps.
  { exists s. split; [done|]. split; [done|]. split; [by eauto|].
    intros d Hd. by apply elem_of_nil in Hd. }
  destruct (Hdeps x) as [l Hl]; [by left|].
  assert (Hne : x ≠ key) by congruence.
  pose (s1 := mkStore (<[x := (l ++ [key])%list]> (used_by s)) (dependencies s)).
  assert (Hstep : add_usage key (x :: rest) s = add_usage key rest s1).
  { simpl. unfold bind at 1, bind at 1, used_by_contains, has_key.
    rewrite Hkey. unfold used_by_append, bind, used_by_getitem. by rewrite Hl. }
  destruct (IH s1) as (s2 & Hrun & Hf & Hgrow & Hin).
  - simpl. by rewrite lookup_insert_ne.
  - intros y Hy. simpl. destruct (decide (x = y)) as [->|Hxy].
    + rewrite lookup_insert_eq. eauto.
    + rewrite lookup_insert_ne by done. apply Hdeps. by right.
  - exists s2. split; [by rewrite Hstep|].
    assert (Hgrow1 : ∀ d l0, used_by s !! d = Some l0 →
              ∃ l1, used_by s1 !! d = Some l1 ∧ ∀ p, p ∈ l0 → p ∈ l1).
    { intros d l0 Hl0. simpl. destruct (decide (x = d)) as [<-|Hxd].
      - rewrite lookup_insert_eq. eexists. split; [done|].
        intros p Hp. apply elem_of_app. left. congruence.
      - rewrite lookup_insert_ne by done. eauto. }
    split; [|split].
    + trans s1; [|done]. by eapply same_frame_overwrite.
    + intros d l0 Hl0. destruct (Hgrow1 _ _ Hl0) as (l1 & Hl1 & H1).
      destruct (Hgrow _ _ Hl1) as (l2 & Hl2 & H2). eauto.
    + intros d [->|Hd]%elem_of_cons; [|by apply Hin].
      destruct (Hgrow x (l ++ [key])%list) as (l2 & Hl2 & H2).
      { simpl. by rewrite lookup_insert_eq. }
      exists l2. split; [done|]. apply H2, elem_of_app. right. by left.
Qed.

(** Indexing a package that is in neither map, with dependencies that
    are keys of both. *)
Lemma add_package_new cmd nm deps s :
  key_symmetric s →
  dependencies s !! nm = None →
  (∀ d, d ∈ deps → is_Some (dependencies s !! d)) →
  ∃ s', add_package (mkPackage cmd nm deps) s = (Returned (Some nm), s') ∧
        dependencies s' !! nm = Some deps ∧
        used_by s' !! nm = Some [] ∧
        ∀ d, d ∈ deps → used_in s' d nm.
Proof.
  intros Hkeys Hprev Hdeps.
  assert (Hkey : used_by s !! nm = None).
  { destruct (used_by s !! nm) eqn:Hu; [|done].
    assert (is_Some (dependencies s !! nm)) as [? ?] by (apply Hkeys; eauto).
    congruence. }
  destruct (add_usage_new nm deps s Hkey) as (s2 & Hrun & [Hd Hk] & _ & Hin).
  { intros x Hx. by apply Hkeys, Hdeps. }
  assert (Hkey2 : used_by s2 !! nm = None).
  { destruct (used_by s2 !! nm) eqn:Hu; [|done].
    assert (is_Some (used_by s !! nm)) as [? ?] by (apply Hk; eauto).
    congruence. }
  exists (mkStore (<[nm := []]> (used_by s2)) (<[nm := deps]> (dependencies s))).
  split; [|split; [|split]].
  - rewrite add_package_proceeds.
    + unfold add_package_body, bind at 1, dependencies_get. simpl.
      rewrite Hprev. unfold drop_stale_usage. simpl. unfold bind at 1, ret at 1.
      rewrite (bind_run _ _ _ _ _ Hrun).
      unfold bind at 1, dependencies_setitem.
      unfold bind at 1, ensure_used_by, bind, used_by_contains, has_key. simpl.
      by rewrite Hkey2, Hd.
    + intros (d & Hdin & Hnone). destruct (Hdeps d Hdin). simpl in *. congruence.
  - simpl. apply lookup_insert_eq.
  - simpl. apply lookup_insert_eq.
  - intros d Hdin. destruct (Hin d Hdin) as (l2 & Hl2 & Hnm).
    exists l2. split; [|done]. simpl. rewrite lookup_insert_ne; [done|].
    intros <-. congruence.
Qed.

(** X6: in every reachable store, indexing a package that is not indexed,
    with dependencies that all are, returns the name: the package is
    stored with the list as given and with no users, and each of its
    dependencies names it as a user. *)
Theorem index_new_package (cmd nm : string) (deps : list string) (s : store) :
  reachable s →
  dependencies s !! nm = None →
  (∀ d, d ∈ deps → is_Some (dependencies s !! d)) →
  ∃ s', add_package (mkPackage cmd nm deps) s = (Returned (Some nm), s') ∧
        dependencies s' !! nm = Some deps ∧
        used_by s' !! nm = Some [] ∧
        ∀ d, d ∈ deps → used_in s' d nm.
Proof.
  intros [ops <-]. apply add_package_new, run_key_symmetric.
Qed.

Lemma index_new_package_witness :
  ∃ s', add_package (mkPackage CMD_INDEX "cloog" ["gmp"; "isl"])
          (run [Index "gmp" []; Index "isl" ["gmp"]] empty_store)
        = (Returned (Some "cloog"), s') ∧
        dependencies s' !! "cloog" = Some ["gmp"; "isl"] ∧
        used_by s' !! "cloog" = Some [] ∧
        ∀ d, d ∈ ["gmp"; "isl"] → used_in s' d "cloog".
Proof.
  apply index_new_package.
  - by eexists.
  - by vm_compute.
  - intros d Hd. apply elem_of_cons in Hd as [->|Hd]; [by vm_compute; eauto|].
    apply elem_of_cons in Hd as [->|Hd]; [by vm_compute; eauto|].
    by apply elem_of_nil in Hd.
Defined.

(** ** Stores in which the two maps agree *)

Lemma list_remove_is_Some x l : x ∈ l → is_Some (list_remove x l).
Proof.
  induction l as [|y l IH]; intros Hin; [by apply elem_of_nil in Hin|].
  simpl. destruct (decide (y = x)) as [->|Hne]; [eauto|].
  apply elem_of_cons in Hin as [->|Hin]; [done|].
  destruct (IH Hin) as [l' ->]. simpl. eauto.
Qed.

Lemma list_remove_other x l l' p :
  list_remove x l = Some l' → p ≠ x → p ∈ l → p ∈ l'.
Proof.
  revert l'. induction l as [|y l IH]; intros l'; simpl; [done|].
  destruct (decide (y = x)) as [->|Hne].
  - intros [= <-] Hp [->|Hin]%elem_of_cons; done.
  - destruct (list_remove x l) as [l0|]; [|done].
    intros [= <-] Hp [->|Hin]%elem_of_cons; [by left|].
    right. by apply IH.
Qed.

Lemma touches_only_refl key items s : touches_only key items s s.
Proof. split; [done|]. intros d l l' p Hl Hl'. congruence. Qed.

(** The clean-up loop changes lists at the items only, and takes out
    entries for the key only. *)
Lemma remove_usage_touches key items s r s' :
  remove_usage key items s = (r, s') → touches_only key items s s'.
Proof.
  revert s. induction items as [|x rest IH]; intros s; simpl.
  { intros [= _ <-]. apply touches_only_refl. }
  unfold bind at 1, used_by_remove at 1, bind at 1, used_by_getitem at 1.
  destruct (used_by s !! x) as [l|] eqn:Hl.
  2: { intros [= _ <-]. apply touches_only_refl. }
  destruct (list_remove key l) as [l1|] eqn:Hrem.
  2: { intros [= _ <-]. apply touches_only_refl. }
  unfold used_by_setitem at 1. intros Hrest.
  destruct (IH _ Hrest) as [Hout Hkeep]. simpl in *. split.
  - intros d Hd. rewrite not_elem_of_cons in Hd. destruct Hd as [Hdx Hd].
    rewrite (Hout d Hd). by rewrite lookup_insert_ne.
  - intros d l0 l' p Hl0 Hl' Hp Hin.
    destruct (decide (x = d)) as [<-|Hxd].
    + apply (Hkeep x l1 l' p); [by rewrite lookup_insert_eq | done | done |].
      eapply list_remove_other; [done | done | congruence].
    + apply (Hkeep d l0 l' p); [by rewrite lookup_insert_ne | done | done | done].
Qed.

(** The clean-up loop runs to its end when the items are distinct and the
    list of each names the key. *)
Lemma remove_usage_returns key items s :
  NoDup items →
  (∀ item, item ∈ items → used_in s item key) →
  ∃ s', remove_usage key items s = (Returned tt, s').
Proof.
  revert s. induction items as [|x rest IH]; intros s Hnd Hin.
  { by exists s. }
  apply NoDup_cons in Hnd as [Hx Hnd].
  destruct (Hin x) as (l & Hl & Hkey); [by left|].
  destruct (list_remove_is_Some _ _ Hkey) as [l1 Hrem].
  pose (s1 := mkStore (<[x := l1]> (used_by s)) (dependencies s)).
  destruct (IH s1 Hnd) as [s' Hrun].
  { intros item Hitem. destruct (Hin item) as (l0 & Hl0 & Hk0); [by right|].
    exists l0. split; [|done]. simpl. rewrite lookup_insert_ne; [done|].
    by intros <-. }
  exists s'. simpl.
  unfold bind at 1, used_by_remove, bind, used_by_getitem.
  by rewrite Hl, Hrem.
Qed.

(** In a store whose lists have no repetition and whose forward entries
    have their reverse entries, the clean-up of [add_package] runs to its
    end. *)
Lemma drop_stale_usage_returns package s :
  set_semantics s → forward_closed s →
  ∃ s1,
    drop_stale_usage package (dependencies s !! name package) s
      = (Returned tt, s1) ∧
    shrinks s s1 ∧
    touches_only (name package)
      (filter (λ x, x ∉ pkg_dependencies package)
              (default [] (dependencies s !! name package))) s s1.
Proof.
  intros [Hnd1 _] Hfwd. unfold drop_stale_usage.
  destruct (dependencies s !! name package) as [prev|] eqn:Hprev.
  2: { exists s. split; [done|]. split; [done | apply touches_only_refl]. }
  destruct prev as [|y prev].
  { exists s. split; [done|]. split; [done | apply touches_only_refl]. }
  simpl truthy_list. cbv iota. simpl default.
  destruct (remove_usage_returns (name package)
              (filter (λ x, x ∉ pkg_dependencies package) (y :: prev)) s)
    as [s1 Hrun].
  - apply NoDup_filter. by eapply Hnd1.
  - intros item [_ Hitem]%list_elem_of_filter. apply Hfwd.
    by exists (y :: prev).
  - exists s1. split; [done|]. split.
    + by eapply preserves_run; [apply remove_usage_shrinks|].
    + by eapply remove_usage_touches.
Qed.

(** X7: in a store that satisfies I1, I2, I3 and I5, none of the three
    operations raises, whatever the request. *)
Theorem consistent_no_raise (o : op) (s : store) :
  consistent s → ∃ b, (exec o s).1 = Returned b.
Proof.
  intros ((Hkeys & Hsets & Hback) & Hfwd & Horph).
  destruct o as [nm deps|nm|nm]; simpl.
  - set (package := mkPackage CMD_INDEX nm deps).
    destruct (some_not_indexed_dec s deps) as [Hm|Hm].
    { rewrite (add_package_refuses package) by done. by exists false. }
    destruct (used_by s !! nm) as [lu|] eqn:Hkey.
    + destruct (drop_stale_usage_returns package s Hsets Hfwd)
        as (s1 & Hdrop & _).
      rewrite (add_package_proceeds package) by done.
      rewrite (add_package_body_known package _ _ _ (mk_is_Some _ _ Hkey) Hdrop).
      by exists true.
    + destruct (add_package_new CMD_INDEX nm deps s Hkeys) as (s' & Hadd & _);
        [| |fold package in Hadd; rewrite Hadd; by exists true].
      * destruct (dependencies s !! nm) eqn:Hp; [|done].
        assert (is_Some (used_by s !! nm)) as [? ?] by (apply Hkeys; eauto).
        congruence.
      * intros d Hd. destruct (dependencies s !! d) eqn:Hdd; [eauto|].
        destruct Hm. by exists d.
  - unfold remove_package, bind at 1, find_package, dependencies_get.
    destruct (dependencies s !! nm) as [val|] eqn:Hval; [|by exists true].
    unfold bind at 1, used_by_get.
    destruct (truthy_list (used_by s !! nm)); [by exists false|].
    destruct (remove_usage_returns nm val s) as [s1 Hrun].
    + destruct Hsets as [Hnd1 _]. by eapply Hnd1.
    + intros item Hitem. apply Hfwd. by exists val.
    + rewrite (bind_run _ _ _ _ _ Hrun). by exists true.
  - unfold find_package, dependencies_get. simpl. eauto.
Qed.

Lemma gentle_index nm deps s :
  gentle (Index nm deps) s = true →
  NoDup deps ∧
  ∀ prev, dependencies s !! nm = Some prev → ∀ d, d ∈ deps → d ∈ prev.
Proof.
  simpl. rewrite andb_true_iff, bool_decide_eq_true. intros [Hnd Hsub].
  split; [done|]. intros prev Hprev d Hd. rewrite Hprev in Hsub.
  rewrite forallb_forall in Hsub.
  apply list_elem_of_In, Hsub in Hd. by apply bool_decide_eq_true in Hd.
Qed.

Lemma add_package_consistent nm deps s :
  consistent s → gentle (Index nm deps) s = true →
  consistent (add_package (mkPackage CMD_INDEX nm deps) s).2.
Proof.
  intros (Htidy & Hfwd & Horph) [Hnd Hsub]%gentle_index.
  split; [by apply add_package_tidy|].
  pose proof Htidy as (Hkeys & Hsets & Hback).
  destruct (some_not_indexed_dec s deps) as [Hm|Hm].
  { by rewrite add_package_refuses. }
  assert (Hdeps : ∀ d, d ∈ deps → is_Some (dependencies s !! d)).
  { intros d Hd. destruct (dependencies s !! d) eqn:Hdd; [eauto|].
    destruct Hm. by exists d. }
  rewrite add_package_proceeds by done.
  destruct (used_by s !! nm) as [lu|] eqn:Hkey.
  - (* the package is indexed already *)
    destruct (drop_stale_usage_returns (mkPackage CMD_INDEX nm deps) s Hsets Hfwd)
      as (s1 & Hdrop & [[Hd Hk] _] & [Hout Hkeep]).
    rewrite (add_package_body_known (mkPackage CMD_INDEX nm deps) s _ s1
               (mk_is_Some _ _ Hkey) Hdrop).
    simpl in *.
    destruct (proj2 (Hkeys nm) (mk_is_Some _ _ Hkey)) as [prev Hprev].
    rewrite Hprev in Hout. simpl in Hout.
    split.
    + intros p d (lp & Hlp & Hdin). simpl in Hlp. unfold used_in. simpl.
      destruct (decide (nm = p)) as [<-|Hne].
      * rewrite lookup_insert_eq in Hlp. injection Hlp as <-.
        destruct (Hfwd nm d) as (l & Hl & Hnm).
        { exists prev. split; [done|]. by eapply Hsub. }
        exists l. split; [|done]. rewrite Hout; [done|].
        intros [Hnot _]%list_elem_of_filter. done.
      * rewrite lookup_insert_ne in Hlp by done. rewrite Hd in Hlp.
        destruct (Hfwd p d) as (l & Hl & Hp); [by exists lp|].
        destruct (proj2 (Hk d) (mk_is_Some _ _ Hl)) as [l1 Hl1].
        exists l1. split; [done|]. by eapply (Hkeep d l l1 p).
    + intros p d (lp & Hlp & Hdin). simpl in *.
      assert (is_Some (dependencies s !! d)) as [ld Hld].
      { destruct (decide (nm = p)) as [<-|Hne].
        - rewrite lookup_insert_eq in Hlp. injection Hlp as <-. by apply Hdeps.
        - rewrite lookup_insert_ne in Hlp by done. rewrite Hd in Hlp.
          apply (Horph p d). by exists lp. }
      destruct (decide (nm = d)) as [<-|Hnd'].
      * rewrite lookup_insert_eq. eauto.
      * rewrite lookup_insert_ne by done. rewrite Hd. eauto.
  - (* the package is new *)
    assert (Hprev : dependencies s !! nm = None).
    { destruct (dependencies s !! nm) eqn:Hp; [|done].
      assert (is_Some (used_by s !! nm)) as [? ?] by (apply Hkeys; eauto).
      congruence. }
    destruct (add_package_body_fresh (mkPackage CMD_INDEX nm deps) s Hkey Hprev)
      as (s2 & -> & Hu); [by intros x Hx; apply Hkeys, Hdeps | done |].
    simpl in *. split.
    + intros p d (lp & Hlp & Hdin). simpl in Hlp. unfold used_in. simpl.
      assert (∃ l, used_by s !! d = Some l ∧ (p ≠ nm → p ∈ l))
        as (l & Hl & Hp).
      { destruct (decide (nm = p)) as [<-|Hne].
        - rewrite lookup_insert_eq in Hlp. injection Hlp as <-.
          destruct (proj1 (Hkeys d) (Hdeps d Hdin)) as [l Hl].
          exists l. by split.
        - rewrite lookup_insert_ne in Hlp by done.
          destruct (Hfwd p d) as (l & Hl & Hp); [by exists lp|].
          exists l. by split. }
      assert (Hdn : nm ≠ d) by (intros <-; congruence).
      rewrite lookup_insert_ne by done. rewrite Hu, Hl.
      destruct (decide (nm = p)) as [<-|Hne].
      * rewrite lookup_insert_eq in Hlp. injection Hlp as <-.
        rewrite decide_True by done. simpl. eexists. split; [done|].
        apply elem_of_app. right. by left.
      * destruct (decide (d ∈ deps)); simpl.
        -- eexists. split; [done|]. apply elem_of_app. left. by apply Hp.
        -- eexists. split; [done|]. by apply Hp.
    + intros p d (lp & Hlp & Hdin). simpl in *.
      assert (is_Some (dependencies s !! d)) as [ld Hld].
      { destruct (decide (nm = p)) as [<-|Hne].
        - rewrite lookup_insert_eq in Hlp. injection Hlp as <-. by apply Hdeps.
        - rewrite lookup_insert_ne in Hlp by done.
          apply (Horph p d). by exists lp. }
      destruct (decide (nm = d)) as [<-|Hnd'].
      * rewrite lookup_insert_eq. eauto.
      * rewrite lookup_insert_ne by done. eauto.
Qed.

Lemma remove_package_consistent key s :
  consistent s → consistent (remove_package key s).2.
Proof.
  intros (Htidy & Hfwd & Horph).
  split; [by apply remove_package_tidy|].
  pose proof Htidy as (Hkeys & Hsets & Hback).
  destruct (dependencies s !! key) as [val|] eqn:Hval.
  2: { assert (remove_package key s = (Returned (Some key), s)) as ->; [|done].
       unfold remove_package, bind, find_package, dependencies_get.
       by rewrite Hval. }
  destruct (truthy_list (used_by s !! key)) eqn:Hused.
  { assert (remove_package key s = (Returned None, s)) as ->; [|done].
    unfold remove_package, bind, find_package, dependencies_get, used_by_get.
    by rewrite Hval, Hused. }
  destruct (remove_usage_returns key val s) as [s1 Hrun].
  { destruct Hsets as [Hnd1 _]. by eapply Hnd1. }
  { intros item Hitem. apply Hfwd. by exists val. }
  pose proof (preserves_run _ _ _ _ _ (remove_usage_frame _ _) Hrun) as [Hd Hk].
  pose proof (remove_usage_touches _ _ _ _ _ Hrun) as [_ Hkeep].
  assert (remove_package key s
          = (Returned (Some key),
             mkStore (delete key (used_by s1)) (delete key (dependencies s1))))
    as ->.
  { unfold remove_package, bind at 1, find_package, dependencies_get.
    rewrite Hval. unfold bind at 1, used_by_get. rewrite Hused.
    by rewrite (bind_run _ _ _ _ _ Hrun). }
  simpl.
  assert (Hunused : ∀ p d, depends_on s p d → d ≠ key).
  { intros p d Hdep <-. destruct (Hfwd _ _ Hdep) as (l & Hl & Hp).
    rewrite Hl in Hused. destruct l; [by apply elem_of_nil in Hp|].
    simpl in Hused. discriminate. }
  split.
  - intros p d (lp & Hlp & Hdin). simpl in Hlp.
    apply lookup_delete_Some in Hlp as [Hp Hlp]. rewrite Hd in Hlp.
    assert (Hdep : depends_on s p d) by by exists lp.
    destruct (Hfwd _ _ Hdep) as (l & Hl & Hpl).
    destruct (proj2 (Hk d) (mk_is_Some _ _ Hl)) as [l1 Hl1].
    exists l1. split.
    + simpl. rewrite lookup_delete_ne; [done|].
      intros <-. by apply (Hunused p key).
    + eapply (Hkeep d l l1 p); [done | done | congruence | done].
  - intros p d (lp & Hlp & Hdin). simpl in *.
    apply lookup_delete_Some in Hlp as [Hp Hlp]. rewrite Hd in Hlp.
    assert (Hdep : depends_on s p d) by by exists lp.
    rewrite lookup_delete_ne, Hd.
    + by apply (Horph p d).
    + intros <-. by apply (Hunused p key).
Qed.

Lemma consistent_empty : consistent empty_store.
Proof.
  split; [apply tidy_empty|]. split.
  - intros p d (l & Hl & _). simpl in Hl. by rewrite lookup_empty in Hl.
  - intros p d (l & Hl & _). simpl in Hl. by rewrite lookup_empty in Hl.
Qed.

Lemma exec_consistent o s :
  consistent s → gentle o s = true → consistent (exec o s).2.
Proof.
  intros Hs Ho. destruct o as [nm deps|nm|nm]; simpl.
  - pose proof (add_package_consistent nm deps s Hs Ho) as H.
    by destruct (add_package _ s).
  - pose proof (remove_package_consistent nm s Hs) as H.
    by destruct (remove_package nm s).
  - done.
Qed.

Lemma run_cons o ops s : run (o :: ops) s = run ops (exec o s).2.
Proof. done. Qed.

Lemma run_consistent ops s :
  consistent s → gentle_run ops s = true → consistent (run ops s).
Proof.
  revert s. induction ops as [|o ops IH]; intros s Hs Hops; [done|].
  simpl in Hops. apply andb_true_iff in Hops as [Ho Hops].
  rewrite run_cons. apply IH; [by apply exec_consistent | done].
Qed.

Lemma consistent_reverse s : consistent s → reverse_consistent s.
Proof.
  intros ((_ & _ & Hback) & Hfwd & _) p d. split; [apply Hfwd | apply Hback].
Qed.

(** X8: from a store that satisfies I1, I2, I3 and I5, calls that are all
    gentle (no index request repeats a dependency or gives an indexed
    package a dependency it did not have) lead to a store that satisfies
    them: same keys in both maps, [d] in [deps[p]] exactly when [p] in
    [users[d]], every dependency indexed, no repetition in any list. *)
Theorem gentle_run_keeps_invariants (ops : list op) (s : store) :
  consistent s → gentle_run ops s = true →
  key_symmetric (run ops s) ∧ reverse_consistent (run ops s) ∧
  no_orphans (run ops s) ∧ set_semantics (run ops s).
Proof.
  intros Hs Hops. pose proof (run_consistent ops s Hs Hops) as Hc.
  pose proof (consistent_reverse _ Hc) as Hrev.
  by destruct Hc as ((? & ? & _) & _ & ?).
Qed.

Lemma gentle_run_keeps_invariants_witness :
  let s := run [Index "gmp" []; Index "isl" ["gmp"];
                Index "cloog" ["gmp"; "isl"]; Index "cloog" ["gmp"];
                Remove "isl"] empty_store in
  key_symmetric s ∧ reverse_consistent s ∧ no_orphans s ∧ set_semantics s.
Proof.
  apply gentle_run_keeps_invariants; [apply consistent_empty | by vm_compute].
Defined.

Lemma consistent_no_raise_witness :
  ∃ b, (exec (Index "isl" [])
          (run [Index "gmp" []; Index "isl" ["gmp"]] empty_store)).1
       = Returned b.
Proof.
  apply consistent_no_raise, run_consistent;
    [apply consistent_empty | by vm_compute].
Defined.

(** X9: in a store that satisfies I1, I2, I3 and I5, [remove_package]
    refuses exactly when some indexed package lists the key as a
    dependency. *)
Theorem remove_refused_iff_depended_on (key : string) (s : store) :
  consistent s →
  ((remove_package key s).1 = Returned None ↔ ∃ p, depends_on s p key).
Proof.
  intros ((_ & _ & Hback) & Hfwd & Horph).
  rewrite remove_package_refuses. split.
  - intros [_ (u & us & Hus)]. exists u. apply Hback.
    exists (u :: us). split; [done | by left].
  - intros [p Hdep]. split; [by apply (Horph p key)|].
    destruct (Hfwd _ _ Hdep) as (l & Hl & Hp).
    destruct l as [|u us]; [by apply elem_of_nil in Hp | eauto].
Qed.

Lemma remove_refused_iff_depended_on_witness :
  (remove_package "gmp" (run [Index "gmp" []; Index "isl" ["gmp"]] empty_store)).1
    = Returned None
  ↔ ∃ p, depends_on (run [Index "gmp" []; Index "isl" ["gmp"]] empty_store) p "gmp".
Proof.
  apply remove_refused_iff_depended_on, run_consistent;
    [apply consistent_empty | by vm_compute].
Defined.

(** * Further properties of the parser *)

Lemma append_assoc (a b c : string) : (a ++ b) ++ c = a ++ (b ++ c).
Proof.
  induction a as [|x a IH]; [done|]. by rewrite !append_cons, IH.
Qed.

Lemma all_chars_app p (a b : string) :
  all_chars p (a ++ b) = all_chars p a && all_chars p b.
Proof.
  induction a as [|x a IH]; [done|].
  rewrite append_cons. simpl. by rewrite IH, andb_assoc.
Qed.

Lemma stops_at_all_chars p s : stops_at p s → all_chars p s = true → s = "".
Proof.
  destruct s as [|c r]; [done|]. simpl. intros ->. done.
Qed.

(** ** Splitting and joining *)

Lemma split_sep_free sep a :
  all_chars (λ c, negb (Ascii.eqb c sep)) a = true → split sep a = [a].
Proof.
  induction a as [|c a IH]; [done|]. simpl.
  intros [Hc Ha]%andb_true_iff. apply negb_true_iff in Hc. rewrite Hc.
  by rewrite (IH Ha).
Qed.

Lemma split_app_sep sep a r :
  all_chars (λ c, negb (Ascii.eqb c sep)) a = true →
  split sep (a ++ String sep r) = a :: split sep r.
Proof.
  induction a as [|c a IH].
  - intros _. rewrite append_nil. simpl. by rewrite Ascii.eqb_refl.
  - rewrite append_cons. simpl.
    intros [Hc Ha]%andb_true_iff. apply negb_true_iff in Hc.
    rewrite Hc. by rewrite (IH Ha).
Qed.

Lemma join_cons sep x y rest :
  join sep (x :: y :: rest) = x ++ String sep (join sep (y :: rest)).
Proof. done. Qed.

Lemma split_join sep l :
  l ≠ [] →
  Forall (λ x, all_chars (λ c, negb (Ascii.eqb c sep)) x = true) l →
  split sep (join sep l) = l.
Proof.
  induction l as [|x rest IH]; [done|]. intros _ Hall.
  apply Forall_cons in Hall as [Hx Hrest].
  destruct rest as [|y rest].
  - simpl. by apply split_sep_free.
  - rewrite join_cons, split_app_sep by done. by rewrite IH.
Qed.

Lemma join_split sep s : join sep (split sep s) = s.
Proof.
  induction s as [|c r IH]; [done|]. simpl.
  destruct (Ascii.eqb c sep) eqn:Hc.
  - apply Ascii.eqb_eq in Hc as ->.
    destruct (split sep r) as [|h t] eqn:Hr; [by apply split_not_nil in Hr|].
    rewrite join_cons, IH. done.
  - destruct (split sep r) as [|h t] eqn:Hr; [by apply split_not_nil in Hr|].
    destruct t as [|h' t].
    + simpl in *. by rewrite IH.
    + rewrite join_cons in *. rewrite append_cons. by rewrite IH.
Qed.

(** X10: [split] and [join] are inverse to each other: joining the pieces
    of any string gives the string back, and splitting the join of a list
    that is not empty, of pieces without the separator, gives the list
    back; a string has one piece more than it has separators, so never
    none. *)
Theorem split_join_round_trip (sep : ascii) :
  (∀ s, join sep (split sep s) = s ∧ split sep s ≠ []) ∧
  (∀ l, l ≠ [] →
        Forall (λ x, all_chars (λ c, negb (Ascii.eqb c sep)) x = true) l →
        split sep (join sep l) = l).
Proof.
  split.
  - intros s. split; [apply join_split | apply split_not_nil].
  - apply split_join.
Qed.

Lemma split_join_round_trip_witness :
  split comma (join comma ["gmp"; "isl"; "pkg-config"])
  = ["gmp"; "isl"; "pkg-config"].
Proof.
  apply split_join_round_trip; [done|]. by repeat constructor.
Defined.

(** ** Request lines and what follows them *)

(** A parse of an input without newline is a parse of the input followed
    by a newline and anything. *)
Lemma DataPackage_init_first_line line rest p :
  DataPackage_init line = Returned p →
  all_chars not_newline line = true →
  DataPackage_init (line ++ nl ++ rest) = Returned p.
Proof.
  intros (deps & rest0 & -> & Hcmd & Hn0 & Hn & Hd & Hstop & Hdeps)
    %DataPackage_init_returned Hline.
  assert (rest0 = "") as ->.
  { apply (stops_at_all_chars not_newline); [done|].
    rewrite !all_chars_app in Hline.
    by repeat (apply andb_true_iff in Hline as [? Hline]). }
  rewrite append_nil_r. apply DataPackage_init_returned.
  exists deps, (nl ++ rest). split; [by rewrite !append_assoc|].
  repeat split; try done.
Qed.

(** The groups of the match for an input whose first two fields hold no
    '|' and whose dependency text stops at a newline or at the end. *)
Lemma request_regex_match_fields cmd nm deps rest :
  all_chars not_pipe cmd = true → all_chars not_pipe nm = true →
  all_chars not_newline deps = true → stops_at not_newline rest →
  request_regex_match (cmd ++ String pipe (nm ++ String pipe (deps ++ rest)))
  = match cmd, nm with
    | String _ _, String _ _ => Some (cmd, nm, deps)
    | _, _ => None
    end.
Proof.
  intros Hc Hn Hd Hrest. unfold request_regex_match.
  rewrite (span_complete not_pipe cmd) by done.
  destruct cmd as [|c0 cmd]; [done|].
  rewrite (span_complete not_pipe nm) by done.
  destruct nm as [|n0 nm]; [done|].
  by rewrite (span_complete not_newline deps).
Qed.

Lemma DataPackage_init_until_newline cmd nm deps rest :
  all_chars not_pipe cmd = true → all_chars not_pipe nm = true →
  all_chars not_newline deps = true →
  DataPackage_init (cmd ++ "|" ++ nm ++ "|" ++ deps ++ nl ++ rest)
  = DataPackage_init (cmd ++ "|" ++ nm ++ "|" ++ deps).
Proof.
  intros Hc Hn Hd. rewrite !DataPackage_init_unfold.
  change (cmd ++ "|" ++ nm ++ "|" ++ deps ++ nl ++ rest)
    with (cmd ++ String pipe (nm ++ String pipe (deps ++ String newline rest))).
  replace (cmd ++ "|" ++ nm ++ "|" ++ deps)
    with (cmd ++ String pipe (nm ++ String pipe (deps ++ "")))
    by by rewrite append_nil_r.
  by rewrite !request_regex_match_fields.
Qed.

(** X11: the result of the parser depends on the input only up to the
    first newline after the second '|': for two fields without '|' and a
    dependency text without newline, the input followed by a newline and
    any further bytes gives the result of the input alone, request or
    ValueError; so a request parsed from an input without newline is
    parsed as well from that input followed by a newline and more.  A
    newline before the second '|' does not end the request, it is taken
    into the field: INDEX|a raises, and INDEX|a, a newline and b|c is the
    request for the name made of a, the newline and b. *)
Theorem parse_ignores_after_newline :
  (∀ cmd nm deps rest,
     all_chars not_pipe cmd = true → all_chars not_pipe nm = true →
     all_chars not_newline deps = true →
     DataPackage_init (cmd ++ "|" ++ nm ++ "|" ++ deps ++ nl ++ rest)
     = DataPackage_init (cmd ++ "|" ++ nm ++ "|" ++ deps)) ∧
  (∀ line rest p,
     DataPackage_init line = Returned p →
     all_chars not_newline line = true →
     DataPackage_init (line ++ nl ++ rest) = Returned p) ∧
  DataPackage_init "INDEX|a" = Raised ValueError ∧
  DataPackage_init ("INDEX|a" ++ nl ++ "b|c")
  = Returned (mkPackage "INDEX" ("a" ++ nl ++ "b") ["c"]).
Proof.
  split; [apply DataPackage_init_until_newline|].
  split; [apply DataPackage_init_first_line|].
  split; by vm_compute.
Qed.

Lemma parse_ignores_after_newline_witness :
  DataPackage_init ("INDEX|cloog|gmp,isl" ++ nl ++ "REMOVE|gmp|" ++ nl)
  = Returned (mkPackage "INDEX" "cloog" ["gmp"; "isl"]) ∧
  DataPackage_init ("index" ++ "|" ++ "cloog" ++ "|" ++ "gmp" ++ nl ++ "x")
  = DataPackage_init ("index" ++ "|" ++ "cloog" ++ "|" ++ "gmp").
Proof.
  split.
  - apply (proj1 (proj2 parse_ignores_after_newline) "INDEX|cloog|gmp,isl");
      by vm_compute.
  - apply (proj1 parse_ignores_after_newline); by vm_compute.
Defined.

Lemma spec_name_chars_not_comma s :
  spec_name_chars s = true →
  all_chars (λ c, negb (Ascii.eqb c comma)) s = true.
Proof.
  induction s as [|c r IH]; simpl; [done|].
  rewrite !andb_true_iff. intros [[[_ Hc] _] Hr]. split; [done | auto].
Qed.

Lemma join_not_newline deps :
  Forall (λ d, spec_name d = true) deps →
  all_chars not_newline (join comma deps) = true.
Proof.
  induction deps as [|d rest IH]; [done|]. intros Hall.
  apply Forall_cons in Hall as [Hd Hrest].
  apply spec_name_spec in Hd as [_ Hd].
  apply spec_name_chars_not_newline in Hd.
  destruct rest as [|d' rest]; [done|].
  rewrite join_cons, all_chars_app, Hd. simpl. by apply IH.
Qed.

Lemma split_depends_join deps :
  Forall (λ d, spec_name d = true) deps →
  split_depends (join comma deps) = deps.
Proof.
  intros Hall. destruct deps as [|d rest]; [done|].
  assert (Hsplit : split comma (join comma (d :: rest)) = d :: rest).
  { apply split_join; [done|]. eapply Forall_impl; [exact Hall|].
    intros x Hx. by apply spec_name_chars_not_comma, spec_name_spec. }
  unfold split_depends. rewrite Hsplit.
  apply Forall_cons in Hall as [[Hd0 _]%spec_name_spec _].
  destruct (join comma (d :: rest)) eqn:Hj; [|done].
  destruct rest as [|d' rest]; simpl in Hj; [done|].
  destruct d; [done|]. rewrite append_cons in Hj. discriminate.
Qed.

Lemma DataPackage_init_request_line cmd nm deps :
  cmd ∈ VALID_COMMANDS → spec_name nm = true →
  Forall (λ d, spec_name d = true) deps →
  DataPackage_init (request_line cmd nm deps) = Returned (mkPackage cmd nm deps).
Proof.
  intros Hcmd [Hn0 Hn]%spec_name_spec Hdeps.
  apply DataPackage_init_returned. simpl.
  exists (join comma deps), "". split; [by rewrite append_nil_r|].
  split; [done|]. split; [done|].
  split; [by apply spec_name_chars_not_pipe|].
  split; [by apply join_not_newline|]. split; [done|].
  by rewrite split_depends_join.
Qed.

Lemma request_line_not_newline cmd nm deps :
  cmd ∈ VALID_COMMANDS → spec_name nm = true →
  Forall (λ d, spec_name d = true) deps →
  all_chars not_newline (request_line cmd nm deps) = true.
Proof.
  intros Hcmd [_ Hn]%spec_name_spec Hdeps. unfold request_line.
  rewrite !all_chars_app, join_not_newline by done.
  rewrite (spec_name_chars_not_newline _ Hn).
  unfold VALID_COMMANDS in Hcmd. rewrite !elem_of_cons, elem_of_nil in Hcmd.
  destruct Hcmd as [->|[->|[->|[]]]]; by vm_compute.
Qed.

Lemma parse_request_line_helper cmd nm deps rest :
  cmd ∈ VALID_COMMANDS → spec_name nm = true →
  Forall (λ d, spec_name d = true) deps →
  DataPackage_init (request_line cmd nm deps ++ nl ++ rest)
    = Returned (mkPackage cmd nm deps).
Proof.
  intros Hcmd Hnm Hdeps. apply DataPackage_init_first_line.
  - by apply DataPackage_init_request_line.
  - by apply request_line_not_newline.
Qed.

(** X12: a request line written in the wire format, with one of the three
    commands, a name of the grammar and dependencies that are names of the
    grammar, parses to exactly that command, name and list of
    dependencies, alone or followed by a newline and further bytes. *)
Theorem parse_request_line (cmd nm : string) (deps : list string) (rest : string) :
  cmd ∈ VALID_COMMANDS → spec_name nm = true →
  Forall (λ d, spec_name d = true) deps →
  DataPackage_init (request_line cmd nm deps) = Returned (mkPackage cmd nm deps) ∧
  DataPackage_init (request_line cmd nm deps ++ nl ++ rest)
    = Returned (mkPackage cmd nm deps).
Proof.
  intros Hcmd Hnm Hdeps.
  split; [by apply DataPackage_init_request_line|].
  by apply parse_request_line_helper.
Qed.

Lemma parse_request_line_witness :
  DataPackage_init (request_line "INDEX" "cloog" ["gmp"; "isl"])
    = Returned (mkPackage "INDEX" "cloog" ["gmp"; "isl"]) ∧
  DataPackage_init (request_line "INDEX" "cloog" ["gmp"; "isl"] ++ nl ++ "")
    = Returned (mkPackage "INDEX" "cloog" ["gmp"; "isl"]).
Proof.
  apply parse_request_line; [by vm_compute; left | by vm_compute |].
  by repeat constructor.
Defined.

(** X13: a parsed request is of exactly one kind: exactly one of
    [is_query], [is_index] and [is_remove] holds of it, so a request that
    is neither a query nor a remove is an index. *)
Theorem parsed_request_kind (s : string) (p : DataPackage) :
  DataPackage_init s = Returned p →
  (is_query p, is_index p, is_remove p)
  ∈ [(true, false, false); (false, true, false); (false, false, true)].
Proof.
  intros (_ & _ & _ & Hcmd & _)%DataPackage_init_returned.
  unfold is_query, is_index, is_remove. unfold VALID_COMMANDS in Hcmd.
  rewrite !elem_of_cons, elem_of_nil in Hcmd.
  destruct Hcmd as [->|[->|[->|[]]]]; rewrite !elem_of_cons;
    [right; left | right; right; left | left]; by vm_compute.
Qed.

Lemma parsed_request_kind_witness :
  (is_query (mkPackage "REMOVE" "cloog" []),
   is_index (mkPackage "REMOVE" "cloog" []),
   is_remove (mkPackage "REMOVE" "cloog" []))
  ∈ [(true, false, false); (false, true, false); (false, false, true)].
Proof.
  apply (parsed_request_kind "REMOVE|cloog|"). by vm_compute.
Defined.

(** * Further properties of the handler *)

(** X14: the responses to the chunks of a connection do not depend on how
    the loop is cut: serving two lists of chunks one after the other, the
    second from the store that the first leaves, gives the responses and
    the store of serving them as one list. *)
Theorem handle_app (chunks1 chunks2 : list string) (s : store) :
  handle (chunks1 ++ chunks2) s =
  (((handle chunks1 s).1 ++ (handle chunks2 (handle chunks1 s).2).1)%list,
   (handle chunks2 (handle chunks1 s).2).2).
Proof.
  revert s. induction chunks1 as [|data rest IH]; intros s; simpl.
  - by destruct (handle chunks2 s).
  - destruct (process_request data s) as [reply s1].
    rewrite IH. by destruct (handle rest s1).
Qed.

Lemma request_op_wire o :
  wire_names o = true →
  ∃ req, DataPackage_init (wire o) = Returned req ∧ request_op req = o.
Proof.
  assert (Hempty : Forall (λ d, spec_name d = true) []) by constructor.
  assert (Hq : CMD_QUERY ∈ VALID_COMMANDS) by (by vm_compute; right; right; left).
  assert (Hr : CMD_REMOVE ∈ VALID_COMMANDS) by (by vm_compute; right; left).
  assert (Hi : CMD_INDEX ∈ VALID_COMMANDS) by (by vm_compute; left).
  destruct o as [nm deps|nm|nm]; simpl; intros Hnames.
  - apply andb_true_iff in Hnames as [Hnm Hdeps].
    assert (Hall : Forall (λ d, spec_name d = true) deps).
    { apply Forall_forall. intros d Hd. rewrite forallb_forall in Hdeps.
      by apply Hdeps, list_elem_of_In. }
    eexists. split.
    + unfold wire. rewrite <- (append_nil_r nl).
      by apply (parse_request_line_helper CMD_INDEX nm deps "").
    + done.
  - eexists. split.
    + unfold wire. rewrite <- (append_nil_r nl).
      by apply (parse_request_line_helper CMD_REMOVE nm [] "").
    + done.
  - eexists. split.
    + unfold wire. rewrite <- (append_nil_r nl).
      by apply (parse_request_line_helper CMD_QUERY nm [] "").
    + done.
Qed.

Lemma take_drop_bytes_short n s :
  (String.length s ≤ n)%nat → take_bytes n s = s ∧ drop_bytes n s = "".
Proof.
  revert n. induction s as [|c r IH]; intros n Hlen.
  - by destruct n.
  - destruct n as [|n]; simpl in Hlen; [lia|].
    destruct (IH n) as [Ht Hd]; [lia|]. simpl. by rewrite Ht, Hd.
Qed.

Lemma recv_whole n s : (String.length s ≤ n)%nat → recv n s = (s, "").
Proof.
  intros Hlen. unfold recv. by destruct (take_drop_bytes_short n s Hlen) as [-> ->].
Qed.

Lemma handle_wire_lines ops s :
  forallb wire_names ops = true →
  handle (map wire ops) s = (replies ops s, run ops s).
Proof.
  revert s. induction ops as [|o ops IH]; intros s; [done|].
  simpl forallb. intros [Ho Hops]%andb_true_iff.
  destruct (request_op_wire o Ho) as (req & Hparse & Hop).
  rewrite run_cons. simpl map. simpl handle.
  rewrite process_request_serve. unfold serve_chunk. rewrite Hparse, Hop.
  simpl replies. destruct (exec o s) as [r s1]. simpl.
  by rewrite (IH s1 Hops).
Qed.

(** X15: for a client that sends calls one at a time, each as its request
    line and a newline, with names of the grammar, and lines of at most
    2048 bytes that have arrived whole when the handler reads: every
    [recv(2048)] returns one whole line and leaves nothing pending, and the
    handler answers each call with the response line of its result (OK for
    success, FAIL for the other value, ERROR for a raise), in order, and
    the store ends as the calls leave it. *)
Theorem handle_wire (ops : list op) (s : store) :
  forallb wire_names ops = true →
  forallb (λ o, Nat.leb (String.length (wire o)) RECV_SIZE) ops = true →
  Forall (λ o, recv RECV_SIZE (wire o) = (wire o, "")) ops ∧
  handle (map (λ o, (recv RECV_SIZE (wire o)).1) ops) s
  = (replies ops s, run ops s).
Proof.
  intros Hnames Hshort.
  assert (Hrecv : Forall (λ o, recv RECV_SIZE (wire o) = (wire o, "")) ops).
  { apply Forall_forall. intros o Ho. rewrite forallb_forall in Hshort.
    apply recv_whole, Nat.leb_le, Hshort. by apply list_elem_of_In. }
  split; [done|].
  replace (map (λ o, (recv RECV_SIZE (wire o)).1) ops) with (map wire ops).
  - by apply handle_wire_lines.
  - apply map_ext_Forall. eapply Forall_impl; [exact Hrecv|].
    intros o Ho. by rewrite Ho.
Qed.

Lemma handle_wire_witness :
  handle (map (λ o, (recv RECV_SIZE (wire o)).1)
            [Index "gmp" []; Index "isl" ["gmp"]; Remove "gmp"; Query "isl"])
    empty_store
  = ([RESPONSE_OK; RESPONSE_OK; RESPONSE_FAIL; RESPONSE_OK],
     run [Index "gmp" []; Index "isl" ["gmp"]; Remove "gmp"; Query "isl"]
       empty_store).
Proof.
  apply (handle_wire [Index "gmp" []; Index "isl" ["gmp"]; Remove "gmp";
                      Query "isl"] empty_store); by vm_compute.
Defined.

(** * Further properties of store instances *)

(** X16: two instances constructed with dicts of their own, the four
    references different, are independent: a method call through one
    leaves the store seen through the other as it was. *)
Theorem explicit_instances_independent {A : Type} (dflt : Objects.defaults)
    (ua da ub db : Objects.ref) (m : M A) (h : Objects.heap) :
  ua ≠ ub → ua ≠ db → da ≠ ub → da ≠ db →
  let a := Objects.init dflt (Some ua) (Some da) in
  let b := Objects.init dflt (Some ub) (Some db) in
  Objects.view b (Objects.call m a h).2 = Objects.view b h.
Proof.
  intros H1 H2 H3 H4. simpl. unfold Objects.call, Objects.view. simpl.
  destruct (m _) as [r s']. simpl.
  by rewrite !lookup_insert_ne.
Qed.

Lemma explicit_instances_independent_witness :
  let '(dflt, h) := Objects.define_class Objects.empty_heap in
  Objects.view (Objects.init dflt (Some 2) (Some 3))
    (Objects.call (add_package (mkPackage CMD_INDEX "x" []))
       (Objects.init dflt None None) h).2
  = Objects.view (Objects.init dflt (Some 2) (Some 3)) h.
Proof.
  apply (explicit_instances_independent
           (Objects.define_class Objects.empty_heap).1 0 1 2 3); done.
Defined.

(** * Indexing and removing a package *)

Lemma list_remove_app_last key (l : list string) :
  key ∉ l → list_remove key (l ++ [key])%list = Some l.
Proof.
  induction l as [|y l IH]; intros Hkey; simpl.
  - by rewrite decide_True.
  - apply not_elem_of_cons in Hkey as [Hne Hkey].
    rewrite decide_False by done. by rewrite IH.
Qed.

(** The clean-up loop takes back what the loop that records the reverse
    entries has appended. *)
Lemma remove_usage_undo key items (u0 u dd : gmap string (list string)) :
  NoDup items →
  (∀ d, d ∈ items →
        ∃ l : list string,
          u0 !! d = Some l ∧ (key ∉ l) ∧ u !! d = Some ((l ++ [key])%list)) →
  ∃ u', remove_usage key items (mkStore u dd) = (Returned tt, mkStore u' dd) ∧
        ∀ d, u' !! d = if decide (d ∈ items) then u0 !! d else u !! d.
Proof.
  revert u. induction items as [|x rest IH]; intros u Hnd Hitems.
  { exists u. split; [done|]. intros d. rewrite decide_False; [done|].
    apply not_elem_of_nil. }
  apply NoDup_cons in Hnd as [Hx Hnd].
  destruct (Hitems x) as (l & Hl0 & Hkey & Hl); [by left|].
  destruct (IH (<[x := l]> u) Hnd) as (u' & Hrun & Hu').
  { intros d Hd. destruct (Hitems d) as (l' & Hl0' & Hkey' & Hl'); [by right|].
    exists l'. split; [done|]. split; [done|].
    rewrite lookup_insert_ne; [done|]. by intros <-. }
  exists u'. split.
  - simpl. unfold bind at 1, used_by_remove, bind, used_by_getitem. simpl.
    rewrite Hl, list_remove_app_last by done. exact Hrun.
  - intros d. rewrite Hu'. destruct (decide (x = d)) as [<-|Hxd].
    + rewrite decide_False by done. rewrite decide_True by by left.
      by rewrite lookup_insert_eq.
    + rewrite lookup_insert_ne by done.
      destruct (decide (d ∈ rest)) as [Hin|Hin].
      * by rewrite decide_True by by right.
      * rewrite decide_False; [done|]. rewrite elem_of_cons.
        intros [Heq|?]; [by subst | done].
Qed.

(** X17: indexing a package that is not indexed, with dependencies that
    are indexed and none repeated, and then removing it, gives back the
    store as it was, in every store whose maps have the same keys and
    whose reverse entries are backed by forward entries. *)
Theorem index_then_remove (cmd nm : string) (deps : list string) (s : store) :
  key_symmetric s → users_backed s →
  dependencies s !! nm = None →
  (∀ d, d ∈ deps → is_Some (dependencies s !! d)) →
  NoDup deps →
  ∃ s1, add_package (mkPackage cmd nm deps) s = (Returned (Some nm), s1) ∧
        remove_package nm s1 = (Returned (Some nm), s).
Proof.
  intros Hkeys Hback Hprev Hdeps Hnd.
  assert (Hkey : used_by s !! nm = None).
  { destruct (used_by s !! nm) eqn:Hu; [|done].
    assert (is_Some (dependencies s !! nm)) as [? ?] by (apply Hkeys; eauto).
    congruence. }
  destruct (add_package_body_fresh (mkPackage cmd nm deps) s Hkey Hprev)
    as (s2 & Hbody & Hu); [by intros x Hx; apply Hkeys, Hdeps | done |].
  simpl in *. eexists. split.
  { rewrite add_package_proceeds; [exact Hbody|].
    intros (d & Hdin & Hnone). destruct (Hdeps d Hdin). simpl in *. congruence. }
  destruct (remove_usage_undo nm deps (used_by s) (<[nm := []]> (used_by s2))
              (<[nm := deps]> (dependencies s)) Hnd) as (u' & Hrun & Hu').
  { intros d Hd. destruct (proj1 (Hkeys d) (Hdeps d Hd)) as [l Hl].
    exists l. split; [done|]. split.
    - intros Hin. destruct (Hback d nm) as (lp & Hlp & _); [by exists l|].
      congruence.
    - rewrite lookup_insert_ne by (intros <-; congruence).
      rewrite Hu, decide_True by done. by rewrite Hl. }
  unfold remove_package, bind at 1, find_package, dependencies_get. simpl.
  rewrite lookup_insert_eq. unfold bind at 1, used_by_get. simpl.
  rewrite lookup_insert_eq. simpl.
  rewrite (bind_run _ _ _ _ _ Hrun). unfold bind, pop_both, ret. simpl.
  f_equal. destruct s as [us ds]. simpl in *. f_equal.
  - apply map_eq. intros k. destruct (decide (nm = k)) as [<-|Hne].
    + by rewrite lookup_delete_eq.
    + rewrite lookup_delete_ne by done. rewrite Hu'.
      destruct (decide (k ∈ deps)) as [Hin|Hin]; [done|].
      rewrite lookup_insert_ne by done. rewrite Hu. by rewrite decide_False.
  - by apply delete_insert_id.
Qed.

Lemma index_then_remove_witness :
  ∃ s1, add_package (mkPackage CMD_INDEX "cloog" ["gmp"; "isl"])
          (run [Index "gmp" []; Index "isl" ["gmp"]] empty_store)
        = (Returned (Some "cloog"), s1) ∧
        remove_package "cloog" s1
        = (Returned (Some "cloog"),
           run [Index "gmp" []; Index "isl" ["gmp"]] empty_store).
Proof.
  assert (Ht : tidy (run [Index "gmp" []; Index "isl" ["gmp"]] empty_store)).
  { apply run_tidy. repeat constructor; simpl; try done.
    apply not_elem_of_nil. }
  destruct Ht as (Hkeys & _ & Hback).
  apply index_then_remove; try done.
  - intros d Hd. apply elem_of_cons in Hd as [->|Hd]; [by vm_compute; eauto|].
    apply elem_of_cons in Hd as [->|Hd]; [by vm_compute; eauto|].
    by apply elem_of_nil in Hd.
  - repeat constructor.
    + apply not_elem_of_cons. split; [done | apply not_elem_of_nil].
    + apply not_elem_of_nil.
Defined.
